(** * spreads command-line front end: a shallow embedding of [spreads/cli.py]

    The development follows the source file top to bottom:
    - Python values, exceptions and the error monad used for code that can
      raise;
    - the argparse surface that [setup_parser] builds
      ([_add_argument_from_option], [_add_device_arguments],
      [_add_plugin_arguments]) together with the part of argparse's
      behaviour the flags rely on (conflict detection, implied defaults,
      option processing);
    - the keypress driven [capture] handler as a function from the key and
      clock inputs to an event trace;
    - [main]: default persistence, the merge of parsed arguments into the
      configuration, logger level selection and dispatch.

    Strings are sequences of 8-bit characters; [lower] is Python's
    [lower()] on the ASCII range.  The text values of options are unicode
    objects and the arguments of the command line are byte strings, so
    that [unicode(arg)] decodes with the ASCII codec and fails on any
    other byte.  An integer option value is taken to be an [int]; the
    integers that are one whatever the platform are singled out by
    [is_plain_int].  Python floats are idealised as rationals: rounding is
    not modelled, only the arithmetic and the zero test of a division. *)

From Stdlib Require Import QArith ZArith String Ascii DecimalString.
From stdpp Require Import gmap strings list.

Local Open Scope string_scope.
Set Warnings "-register-all".

(** ** Python values and exceptions *)

Inductive pyval : Type :=
| PNone
| PBool (b : bool)
| PInt (z : Z)
| PFloat (q : Q)
| PStr (s : string)
| PSeq (items : list pyval)
| PObj (tyname : string).

Inductive pytype : Type :=
| TyNoneType | TyBool | TyInt | TyFloat | TyUnicode | TySeq
| TyObj (tyname : string).

Inductive pyexc : Type :=
| TypeError (msg : string)
| IndexError
| ValueError (msg : string)
| KeyError (key : string)
| AttributeError (attr : string)
| ZeroDivisionError
| ArgumentError (option_string : string)
| ConfigError (path : list string)
| DeviceException (msg : string)
| SystemExit (code : Z).

Inductive result (A : Type) : Type :=
| Ok (a : A)
| Raise (e : pyexc).
Arguments Ok {A} a.
Arguments Raise {A} e.

Definition bind {A B : Type} (m : result A) (k : A -> result B) : result B :=
  match m with
  | Ok a => k a
  | Raise e => Raise e
  end.

Notation "'do' x <- m ; k" := (bind m (fun x => k))
  (at level 10, x name, m at level 100, k at level 200).
Notation "'do' ' pat <- m ; k" := (bind m (fun x => match x with pat => k end))
  (at level 10, pat pattern, m at level 100, k at level 200).

Definition is_ok {A : Type} (m : result A) : bool :=
  match m with Ok _ => true | Raise _ => false end.

(** [type(v)] and the name Python prints for it. *)
Definition py_type (v : pyval) : pytype :=
  match v with
  | PNone => TyNoneType
  | PBool _ => TyBool
  | PInt _ => TyInt
  | PFloat _ => TyFloat
  | PStr _ => TyUnicode
  | PSeq _ => TySeq
  | PObj n => TyObj n
  end.

Definition py_type_name (v : pyval) : string :=
  match v with
  | PNone => "NoneType"
  | PBool _ => "bool"
  | PInt _ => "int"
  | PFloat _ => "float"
  | PStr _ => "unicode"
  | PSeq _ => "list"
  | PObj n => n
  end.

(** Truth value testing ([if x], [not x]). *)
Definition py_truthy (v : pyval) : bool :=
  match v with
  | PNone => false
  | PBool b => b
  | PInt z => negb (z =? 0)%Z
  | PFloat q => negb (Qeq_bool q 0)
  | PStr s => negb (String.eqb s "")
  | PSeq l => match l with [] => false | _ => true end
  | PObj _ => true
  end.

(** [v is None] *)
Definition is_none (v : pyval) : bool :=
  match v with PNone => true | _ => false end.

(** The numeric reading of a value, for [==] across bool, int and float. *)
Definition py_number (v : pyval) : option Q :=
  match v with
  | PBool b => Some (if b then 1 else 0)%Q
  | PInt z => Some (inject_Z z)
  | PFloat q => Some q
  | _ => None
  end.

(** [a == b] *)
Fixpoint py_eqb (a b : pyval) {struct a} : bool :=
  match a, b with
  | PNone, PNone => true
  | PStr s, PStr t => String.eqb s t
  | PObj n, PObj m => String.eqb n m
  | PSeq l, PSeq r =>
      (fix all2 (l : list pyval) (r : list pyval) {struct l} : bool :=
         match l, r with
         | [], [] => true
         | x :: l', y :: r' => py_eqb x y && all2 l' r'
         | _, _ => false
         end) l r
  | _, _ =>
      match py_number a, py_number b with
      | Some p, Some q => Qeq_bool p q
      | _, _ => false
      end
  end.

(** [v in seq] for a list or tuple. *)
Definition py_in (v : pyval) (l : list pyval) : bool :=
  existsb (py_eqb v) l.

(** [v[0]] *)
Definition py_getitem0 (v : pyval) : result pyval :=
  match v with
  | PSeq (x :: _) => Ok x
  | PSeq [] => Raise IndexError
  | PStr (String c _) => Ok (PStr (String c EmptyString))
  | PStr EmptyString => Raise IndexError
  | _ => Raise (TypeError ("'" +:+ py_type_name v +:+
                           "' object has no attribute '__getitem__'"))
  end.

(** ** Strings *)

Definition ascii_lower (c : ascii) : ascii :=
  let n := nat_of_ascii c in
  if (65 <=? n)%nat && (n <=? 90)%nat then ascii_of_nat (n + 32) else c.

(** [s.lower()] *)
Fixpoint lower (s : string) : string :=
  match s with
  | EmptyString => EmptyString
  | String c s' => String (ascii_lower c) (lower s')
  end.

(** Every character is below 128: the byte strings that the ASCII codec
    decodes. *)
Fixpoint is_ascii (s : string) : bool :=
  match s with
  | EmptyString => true
  | String c s' => (nat_of_ascii c <? 128)%nat && is_ascii s'
  end.

(** [sep.join(items)] for a list of strings *)
Fixpoint join (sep : string) (items : list string) : string :=
  match items with
  | [] => ""
  | [x] => x
  | x :: rest => x +:+ sep +:+ join sep rest
  end.

(** The strings of a sequence, or the position and value of the first item
    that is not one. *)
Fixpoint str_items (i : nat) (l : list pyval) : result (list string) :=
  match l with
  | [] => Ok []
  | PStr s :: l' => do r <- str_items (S i) l'; Ok (s :: r)
  | x :: _ =>
      Raise (TypeError ("sequence item " +:+
                        NilEmpty.string_of_uint (Nat.to_uint i) +:+
                        ": expected string or Unicode, " +:+
                        py_type_name x +:+ " found"))
  end.

(** [sep.join(v)] on a Python value. *)
Definition py_join (sep : string) (v : pyval) : result string :=
  match v with
  | PSeq l => do r <- str_items 0 l; Ok (join sep r)
  | PStr s => Ok (join sep (map (fun c => String c EmptyString)
                                (list_ascii_of_string s)))
  | _ => Raise (TypeError "can only join an iterable")
  end.

(** [str(n)] for a natural number. *)
Definition str_of_nat (n : nat) : string :=
  NilEmpty.string_of_uint (Nat.to_uint n).

(** Number of occurrences of a character, and [s.split(c)]. *)
Fixpoint count_char (c : ascii) (s : string) : nat :=
  match s with
  | EmptyString => 0
  | String d s' => (if Ascii.eqb c d then 1 else 0) + count_char c s'
  end.

Fixpoint split (c : ascii) (s : string) : list string :=
  match s with
  | EmptyString => [""]
  | String d s' =>
      if Ascii.eqb c d then "" :: split c s'
      else match split c s' with
           | [] => [String d ""]
           | w :: ws => String d w :: ws
           end
  end.

(** ** The argparse surface *)

Inductive action_kind : Type :=
| Store | StoreTrue | StoreFalse | Help.

(** A help string: either literal text or the rendering of
    ["{0} [default: {1}]".format(doc, default)], kept symbolic because it
    embeds [str(default)]. *)
Inductive help_text : Type :=
| HelpPlain (text : string)
| HelpDefault (doc : string) (default : pyval).

(** The keyword arguments handed to [parser.add_argument].  An absent
    keyword is [None]. *)
Record Kwargs : Type := mkKwargs {
  kw_help : option help_text;
  kw_dest : string;
  kw_type : option pytype;
  kw_metavar : option string;
  kw_action : option action_kind;
  kw_choices : option pyval;
  kw_default : option pyval
}.

(** A registered argparse action.  [a_default = None] stands for
    [argparse.SUPPRESS]: no attribute is created for the destination. *)
Record Action : Type := mkAction {
  option_strings : list string;
  a_dest : string;
  a_kind : action_kind;
  a_default : option pyval;
  a_type : option pytype;
  a_choices : option pyval;
  a_metavar : option string;
  a_help : option help_text
}.

(** An [ArgumentParser]: its actions in registration order and the parser
    level defaults of [set_defaults]. *)
Record ArgumentParser : Type := mkParser {
  actions : list Action;
  p_defaults : list (string * pyval)
}.

Definition help_action : Action :=
  {| option_strings := ["-h"; "--help"]; a_dest := "help"; a_kind := Help;
     a_default := None; a_type := None; a_choices := None;
     a_metavar := None; a_help := Some (HelpPlain "show this help message and exit") |}.

(** [subparsers.add_parser(...)]: a fresh parser owns only [-h/--help]. *)
Definition new_parser : ArgumentParser :=
  {| actions := [help_action]; p_defaults := [] |}.

Definition registered_flags (p : ArgumentParser) : list string :=
  concat (map option_strings (actions p)).

Definition has_flag (f : string) (p : ArgumentParser) : bool :=
  existsb (String.eqb f) (registered_flags p).

Fixpoint assoc {A : Type} (k : string) (l : list (string * A)) : option A :=
  match l with
  | [] => None
  | (k', v) :: l' => if String.eqb k k' then Some v else assoc k l'
  end.

(** [d[k] = v] on a dictionary kept as a list of items. *)
Fixpoint dict_update {A : Type} (k : string) (v : A) (l : list (string * A))
  : list (string * A) :=
  match l with
  | [] => [(k, v)]
  | (k', v') :: rest =>
      if String.eqb k k' then (k, v) :: rest
      else (k', v') :: dict_update k v rest
  end.

Definition with_default (v : pyval) (a : Action) : Action :=
  {| option_strings := option_strings a; a_dest := a_dest a;
     a_kind := a_kind a; a_default := Some v; a_type := a_type a;
     a_choices := a_choices a; a_metavar := a_metavar a;
     a_help := a_help a |}.

(** [parser.set_defaults(dest=v)]: the parser level default is recorded
    and every action already registered for [dest] takes it over. *)
Definition set_defaults (dest : string) (v : pyval) (p : ArgumentParser)
  : ArgumentParser :=
  {| actions :=
       map (fun a => if String.eqb (a_dest a) dest then with_default v a
                     else a) (actions p);
     p_defaults := dict_update dest v (p_defaults p) |}.

(** The action [add_argument] builds: an explicit [default] keyword wins,
    then a parser level default for the destination, then the default the
    action class implies ([False] for [store_true], [True] for
    [store_false], [None] for [store]). *)
Definition make_action (flags : list string) (kw : Kwargs)
    (p : ArgumentParser) : Action :=
  let kind := match kw_action kw with Some k => k | None => Store end in
  let explicit :=
    match kw_default kw with
    | Some d => Some d
    | None => assoc (kw_dest kw) (p_defaults p)
    end in
  {| option_strings := flags;
     a_dest := kw_dest kw;
     a_kind := kind;
     a_default :=
       match kind with
       | Help => None
       | Store => Some (match explicit with Some d => d | None => PNone end)
       | StoreTrue =>
           Some (match explicit with Some d => d | None => PBool false end)
       | StoreFalse =>
           Some (match explicit with Some d => d | None => PBool true end)
       end;
     a_type := kw_type kw;
     a_choices := kw_choices kw;
     a_metavar := kw_metavar kw;
     a_help := kw_help kw |}.

(** [parser.add_argument(flag, ...)] with the default conflict
    handler: an option string that is already taken raises. *)
Definition add_argument (flags : list string) (kw : Kwargs)
    (p : ArgumentParser) : result ArgumentParser :=
  match List.find (fun f => has_flag f p) flags with
  | Some f => Raise (ArgumentError f)
  | None =>
      Ok {| actions := (actions p ++ [make_action flags kw p])%list;
            p_defaults := p_defaults p |}
  end.

(** ** setup_parser: flag synthesis *)

(** An option declared by a driver or an extension
    ([option.value], [option.docstring], [option.selectable]). *)
Record PluginOption : Type := mkOption {
  value : pyval;
  docstring : string;
  selectable : bool
}.

Definition UnsupportedOptionType : pyexc :=
  TypeError "Unsupported option type".

Definition with_text (ty : pytype) (mv : string) (kw : Kwargs) : Kwargs :=
  {| kw_help := kw_help kw; kw_dest := kw_dest kw; kw_type := Some ty;
     kw_metavar := Some mv; kw_action := kw_action kw;
     kw_choices := kw_choices kw; kw_default := kw_default kw |}.

Definition with_switch (h : string) (k : action_kind) (kw : Kwargs) : Kwargs :=
  {| kw_help := Some (HelpPlain h); kw_dest := kw_dest kw;
     kw_type := kw_type kw; kw_metavar := kw_metavar kw;
     kw_action := Some k; kw_choices := kw_choices kw;
     kw_default := kw_default kw |}.

Definition with_choices (ty : pytype) (mv : string) (cs : pyval)
    (kw : Kwargs) : Kwargs :=
  {| kw_help := kw_help kw; kw_dest := kw_dest kw; kw_type := Some ty;
     kw_metavar := Some mv; kw_action := kw_action kw;
     kw_choices := Some cs; kw_default := kw_default kw |}.

(** The flag name and keyword arguments computed by
    [_add_argument_from_option] before it registers them. *)
Definition option_flag (extname key : string) (opt : PluginOption)
  : result (string * Kwargs) :=
  let flag := "--" +:+ key in
  do default <- (if negb (selectable opt) then Ok (value opt)
                 else py_getitem0 (value opt));
  let kwargs :=
    {| kw_help := Some (HelpDefault (docstring opt) default);
       kw_dest := extname +:+ "." +:+ key;
       kw_type := None; kw_metavar := None; kw_action := None;
       kw_choices := None; kw_default := None |} in
  match value opt with
  | PStr _ => Ok (flag, with_text TyUnicode "<str>" kwargs)
  | PBool b =>
      if b then
        Ok ("--no-" +:+ key,
            with_switch ("Disable " +:+ lower (docstring opt)) StoreFalse kwargs)
      else Ok (flag, with_switch (docstring opt) StoreTrue kwargs)
  | PFloat _ => Ok (flag, with_text TyFloat "<float>" kwargs)
  | PInt _ => Ok (flag, with_text TyInt "<int>" kwargs)
  | v =>
      if selectable opt then
        do first <- py_getitem0 v;
        do joined <- py_join "/" v;
        Ok (flag, with_choices (py_type first) ("<" +:+ joined +:+ ">") v kwargs)
      else Raise UnsupportedOptionType
  end.

Definition _add_argument_from_option (extname key : string)
    (opt : PluginOption) (parser : ArgumentParser) : result ArgumentParser :=
  do '(flag, kwargs) <- option_flag extname key opt;
  add_argument [flag] kwargs parser.

(** An option template in iteration order; [None] is a driver or plugin
    without one. *)
Definition template : Type := option (list (string * PluginOption)).

(** [_add_device_arguments]: the first exception of any kind leaves the
    function. *)
Fixpoint device_loop (items : list (string * PluginOption))
    (parser : ArgumentParser) : ArgumentParser :=
  match items with
  | [] => parser
  | (key, opt) :: rest =>
      match _add_argument_from_option "device" key opt parser with
      | Ok parser' => device_loop rest parser'
      | Raise _ => parser
      end
  end.

Definition _add_device_arguments (tmpl : template) (parser : ArgumentParser)
  : ArgumentParser :=
  match tmpl with
  | None | Some [] => parser
  | Some items => device_loop items parser
  end.

(** A relevant extension: its name and its plugin's template. *)
Record Extension : Type := mkExtension {
  ext_name : string;
  ext_template : template
}.

(** The inner loop of [_add_plugin_arguments]: an exception of any kind
    moves on to the next option of the same extension. *)
Fixpoint plugin_loop (extname : string) (items : list (string * PluginOption))
    (parser : ArgumentParser) : ArgumentParser :=
  match items with
  | [] => parser
  | (key, opt) :: rest =>
      match _add_argument_from_option extname key opt parser with
      | Ok parser' => plugin_loop extname rest parser'
      | Raise _ => plugin_loop extname rest parser
      end
  end.

Fixpoint _add_plugin_arguments (extensions : list Extension)
    (parser : ArgumentParser) : ArgumentParser :=
  match extensions with
  | [] => parser
  | ext :: rest =>
      match ext_template ext with
      | None | Some [] => _add_plugin_arguments rest parser
      | Some items =>
          _add_plugin_arguments rest (plugin_loop (ext_name ext) items parser)
      end
  end.

(** ** argparse: processing the command line of one parser *)

(** [args.__dict__]: attribute names are unique, items are kept in
    insertion order. *)
Definition namespace : Type := list (string * pyval).

Fixpoint setattr (k : string) (v : pyval) (ns : namespace) : namespace :=
  match ns with
  | [] => [(k, v)]
  | (k', v') :: rest =>
      if String.eqb k k' then (k, v) :: rest else (k', v') :: setattr k v rest
  end.

Definition hasattr (k : string) (ns : namespace) : bool :=
  match assoc k ns with Some _ => true | None => false end.

(** One optional on the command line: the option string that was matched
    and the argument that came with it, if any. *)
Record occurrence : Type := mkOcc {
  occ_flag : string;
  occ_arg : option string
}.

Definition usage_error {A : Type} : result A := Raise (SystemExit 2).

Section Parsing.

(** The builtins [int(s)] and [float(s)] on a string; [None] when they
    raise [ValueError]. *)
Variable py_int : string -> option Z.
Variable py_float : string -> option Q.

(** [type_func(arg_string)] *)
Definition call_type (ty : pytype) (s : string) : result pyval :=
  match ty with
  | TyUnicode =>
      if is_ascii s then Ok (PStr s)
      else Raise (ValueError "'ascii' codec can't decode byte")
  | TyInt =>
      match py_int s with
      | Some z => Ok (PInt z)
      | None => Raise (ValueError "invalid literal for int()")
      end
  | TyFloat =>
      match py_float s with
      | Some q => Ok (PFloat q)
      | None => Raise (ValueError "could not convert string to float")
      end
  | TyBool => Ok (PBool (negb (String.eqb s "")))
  | TySeq =>
      Ok (PSeq (map (fun c => PStr (String c EmptyString))
                    (list_ascii_of_string s)))
  | TyNoneType => Raise (TypeError "cannot create 'NoneType' instances")
  | TyObj n => Raise (TypeError ("cannot create '" +:+ n +:+ "' instances"))
  end.

(** argparse turns a failed conversion into a usage error. *)
Definition get_value (a : Action) (s : string) : result pyval :=
  match a_type a with
  | None => Ok (PStr s)
  | Some ty =>
      match call_type ty s with
      | Ok v => Ok v
      | Raise _ => usage_error
      end
  end.

(** [value not in action.choices] is a usage error. *)
Definition check_value (a : Action) (v : pyval) : result unit :=
  match a_choices a with
  | None => Ok tt
  | Some (PSeq l) => if py_in v l then Ok tt else usage_error
  | Some c =>
      Raise (TypeError ("argument of type '" +:+ py_type_name c +:+
                        "' is not iterable"))
  end.

Definition take_action (a : Action) (arg : option string) (ns : namespace)
  : result namespace :=
  match a_kind a, arg with
  | Store, Some s =>
      do v <- get_value a s;
      do _ <- check_value a v;
      Ok (setattr (a_dest a) v ns)
  | Store, None => usage_error
  | StoreTrue, None => Ok (setattr (a_dest a) (PBool true) ns)
  | StoreFalse, None => Ok (setattr (a_dest a) (PBool false) ns)
  | Help, None => Raise (SystemExit 0)
  | _, Some _ => usage_error
  end.

Definition find_action (f : string) (p : ArgumentParser) : option Action :=
  List.find (fun a => existsb (String.eqb f) (option_strings a)) (actions p).

Fixpoint consume (p : ArgumentParser) (occs : list occurrence)
    (ns : namespace) : result namespace :=
  match occs with
  | [] => Ok ns
  | o :: rest =>
      match find_action (occ_flag o) p with
      | None => usage_error
      | Some a =>
          do ns' <- take_action a (occ_arg o) ns;
          consume p rest ns'
      end
  end.

(** Defaults are installed first, and only for attributes the namespace
    does not have yet: action defaults in registration order, then the
    parser level defaults. *)
Definition add_action_defaults (acts : list Action) (ns : namespace)
  : namespace :=
  fold_left
    (fun ns a =>
       match a_default a with
       | Some d => if hasattr (a_dest a) ns then ns
                   else setattr (a_dest a) d ns
       | None => ns
       end) acts ns.

Definition add_parser_defaults (defs : list (string * pyval))
    (ns : namespace) : namespace :=
  fold_left
    (fun ns kv => if hasattr (fst kv) ns then ns
                  else setattr (fst kv) (snd kv) ns) defs ns.

(** [parser.parse_known_args(argv, namespace)] restricted to optionals. *)
Definition parse_known_args (p : ArgumentParser) (occs : list occurrence)
    (ns : namespace) : result namespace :=
  consume p occs
    (add_parser_defaults (p_defaults p)
       (add_action_defaults (actions p) ns)).

End Parsing.

(** ** capture *)

Record Device : Type := mkDevice {
  orientation : pyval
}.

(** The workflow as [capture] sees it: the connected devices and
    [workflow.config['capture']['capture_keys'].as_str_seq()]. *)
Record Workflow : Type := mkWorkflow {
  devices : list Device;
  capture_keys : list string
}.

Inductive event : Type :=
| Print (text : string)
| PrepareCapture
| Capture
| FinishCapture
| Status (shot_count : nat) (pages_per_hour : Q)
| Summary (shot_count : nat) (minutes : Q) (pages_per_hour : Q).

(** How a handler stops: it returns, it raises, or it is still waiting in
    [getch()] when the recorded keypresses are used up. *)
Inductive outcome (A : Type) : Type :=
| Returned (a : A)
| Raised (e : pyexc)
| Blocked.
Arguments Returned {A} a.
Arguments Raised {A} e.
Arguments Blocked {A}.

(** [a / b] under [from __future__ import division]. *)
Definition py_truediv (a b : Q) : result Q :=
  if Qeq_bool b 0 then Raise ZeroDivisionError else Ok (a / b)%Q.

Definition Q_of_nat (n : nat) : Q := inject_Z (Z.of_nat n).

(** [(3600/(time.time() - start_time))*shot_count] *)
Definition rate (start_time now : Q) (shot_count : nat) : result Q :=
  do per_second <- py_truediv 3600 (now - start_time)%Q;
  Ok (per_second * Q_of_nat shot_count)%Q.

Definition is_capture_key (w : Workflow) (key : string) : bool :=
  existsb (String.eqb (lower key)) (capture_keys w).

(** The [while True] loop.  [keys] are the successive results of [getch()],
    [clock n] is the value of the [n]-th call of [time.time()] and [tick]
    counts the calls made so far.  Leaving through [break] returns the
    loop variables. *)
Fixpoint capture_loop (w : Workflow) (start_time : Q) (clock : nat -> Q)
    (tick : nat) (keys : list string) (shot_count : nat) (pages_per_hour : Q)
  : list event * outcome (nat * Q * nat) :=
  match keys with
  | [] => ([], Blocked)
  | key :: keys' =>
      if negb (is_capture_key w key) then
        ([], Returned (shot_count, pages_per_hour, tick))
      else
        let shot_count' := (shot_count + length (devices w))%nat in
        match rate start_time (clock tick) shot_count' with
        | Raise e => ([Capture], Raised e)
        | Ok pages_per_hour' =>
            let '(tr, out) :=
              capture_loop w start_time clock (S tick) keys' shot_count'
                           pages_per_hour' in
            (Capture :: Status shot_count' pages_per_hour' :: tr, out)
        end
  end.

Definition wrong_count_message (n : nat) : string :=
  "Please connect and turn on two pre-configured devices! (" +:+
  str_of_nat n +:+ " were found)".

Definition not_configured_message : string :=
  "At least one of the devices has not been properly configured, " +:+
  "please re-run the program with the 'configure' option!".

Definition capture (w : Workflow) (keys : list string) (clock : nat -> Q)
  : list event * outcome unit :=
  if negb (length (devices w) =? 2)%nat then
    ([], Raised (DeviceException (wrong_count_message (length (devices w)))))
  else
    let found :=
      Print ("Found " +:+ str_of_nat (length (devices w)) +:+ " devices!") in
    if existsb (fun x => negb (py_truthy (orientation x))) (devices w) then
      ([found], Raised (DeviceException not_configured_message))
    else
      let start_time := clock 0%nat in
      let '(tr, out) := capture_loop w start_time clock 1 keys 0 0%Q in
      let armed :=
        ([found; Print "Setting up devices for capturing."; PrepareCapture;
          Print "Press 'b' to capture."] ++ tr)%list in
      match out with
      | Returned (shot_count, pages_per_hour, tick) =>
          ((armed ++
              [FinishCapture;
               Summary shot_count ((clock tick - start_time) / 60)%Q
                       pages_per_hour])%list,
           Returned tt)
      | Raised e => (armed, Raised e)
      | Blocked => (armed, Blocked)
      end.

(** ** main *)

(** The configuration: a mapping from key paths to values.  [config[k]] is
    the path [[k]], [config[section][key]] the path [[section; key]];
    assignment overwrites whatever the path held. *)
Abbreviation ConfigNamespace := (gmap (list string) pyval).

(** The loop over [args.__dict__.iteritems()]. *)
Fixpoint merge_args (items : namespace) (config : ConfigNamespace)
  : result ConfigNamespace :=
  match items with
  | [] => Ok config
  | (argkey, value) :: rest =>
      if is_none value || String.eqb argkey "func" then merge_args rest config
      else if (0 <? count_char "." argkey)%nat then
        match split "." argkey with
        | [section; key] => merge_args rest (<[ [section; key] := value ]> config)
        | _ => Raise (ValueError "too many values to unpack")
        end
      else merge_args rest (<[ [argkey] := value ]> config)
  end.

(** The keys of the dictionary handed to [as_choice], with the numeric
    levels of the [logging] module. *)
Definition loglevels : list (string * Z) :=
  [("none", 0); ("info", 20); ("debug", 10); ("warning", 30);
   ("error", 40); ("critical", 50)]%Z.

Definition logging_DEBUG : Z := 10.

(** [config[path].as_choice(choices)] *)
Definition as_choice (path : list string) (choices : list (string * Z))
    (config : ConfigNamespace) : result Z :=
  match config !! path with
  | Some (PStr s) =>
      match assoc s choices with
      | Some level => Ok level
      | None => Raise (ConfigError path)
      end
  | _ => Raise (ConfigError path)
  end.

(** [config[path].get()] *)
Definition config_get (path : list string) (config : ConfigNamespace)
  : result pyval :=
  match config !! path with
  | Some v => Ok v
  | None => Raise (ConfigError path)
  end.

(** [args.attr] *)
Definition getattr (attr : string) (args : namespace) : result pyval :=
  match assoc attr args with
  | Some v => Ok v
  | None => Raise (AttributeError attr)
  end.

(** What [globals()] of the module holds: the four subcommand handlers and
    the other module level names, imported, defined or set by the
    interpreter.  Looking a name up says nothing on whether the object
    found can be called. *)
Inductive handler : Type :=
| HCapture | HPostprocess | HOutput | HWizard
| HOther (name : string).

Definition other_globals : list string :=
  ["getch"; "setup_parser"; "main"; "argparse"; "logging"; "os"; "sys";
   "time"; "colorama"; "confit"; "Workflow"; "get_devices"; "get_driver";
   "get_pluginmanager"; "setup_plugin_config"; "get_relevant_extensions";
   "DeviceException"; "ColourStreamHandler"; "division";
   "unicode_literals"; "print_function";
   "__name__"; "__doc__"; "__file__"; "__package__"; "__builtins__"].

Definition globals_lookup (name : string) : result handler :=
  if String.eqb name "capture" then Ok HCapture
  else if String.eqb name "postprocess" then Ok HPostprocess
  else if String.eqb name "output" then Ok HOutput
  else if String.eqb name "wizard" then Ok HWizard
  else if existsb (String.eqb name) other_globals then Ok (HOther name)
  else Raise (KeyError name).

(** Observable steps of [main], in program order.  Every access to the raw
    parsed arguments ([ArgsItems], [ArgsGet]) and to the configuration
    ([ConfigGet]) is recorded. *)
Inductive main_event : Type :=
| ConfigRead
| SetupPluginConfig
| PathExists (found : bool)
| Dump (snapshot : ConfigNamespace)
| SetupParser
| ParseArgs
| ArgsItems
| ConfigGet (path : list string)
| ArgsGet (attr : string)
| LoggerSetup (level : Z)
| NewWorkflow (config : ConfigNamespace)
| Call (h : handler)
| Deinit.

Record main_run : Type := mkRun {
  trace : list main_event;
  disk : option ConfigNamespace;
  final_config : option ConfigNamespace;
  status : result unit
}.

Section Main.

(** What lies outside the file: the result of running a handler on the
    workflow built from the configuration. *)
Variable run_handler : handler -> ConfigNamespace -> result unit.

(** The part of [main] after the merge loop: logger level, workflow,
    dispatch. *)
Definition after_merge (args : namespace) (config : ConfigNamespace)
  : list main_event * result unit :=
  match as_choice ["loglevel"] loglevels config with
  | Raise e => ([ConfigGet ["loglevel"]], Raise e)
  | Ok level =>
      match getattr "verbose" args with
      | Raise e => ([ConfigGet ["loglevel"]; ArgsGet "verbose"], Raise e)
      | Ok verbose =>
          let loglevel := if py_truthy verbose then logging_DEBUG else level in
          let pre := [ConfigGet ["loglevel"]; ArgsGet "verbose";
                      LoggerSetup loglevel; NewWorkflow config;
                      ConfigGet ["subcommand"]] in
          match config_get ["subcommand"] config with
          | Raise e => (pre, Raise e)
          | Ok (PStr name) =>
              match globals_lookup name with
              | Raise e => (pre, Raise e)
              | Ok h =>
                  match run_handler h config with
                  | Raise e => ((pre ++ [Call h])%list, Raise e)
                  | Ok _ => ((pre ++ [Call h; Deinit])%list, Ok tt)
                  end
              end
          | Ok _ => (pre, Raise (TypeError "unhashable or unknown key"))
          end
      end
  end.

(** [main].  [file] is the persisted configuration found at start-up, if
    any; [config0] is the configuration after [config.read()] and
    [setup_plugin_config(config)]; [parsed] is what
    [setup_parser(config).parse_args()] produces. *)
Definition main (file : option ConfigNamespace) (config0 : ConfigNamespace)
    (parsed : result namespace) : main_run :=
  let start := [ConfigRead; SetupPluginConfig;
                PathExists (match file with Some _ => true | None => false end)] in
  let '(written, disk') :=
    match file with
    | Some _ => ([], file)
    | None => ([Dump config0], Some config0)
    end in
  let upto_parse := (start ++ written ++ [SetupParser; ParseArgs])%list in
  match parsed with
  | Raise e => mkRun upto_parse disk' None (Raise e)
  | Ok args =>
      match merge_args args config0 with
      | Raise e => mkRun (upto_parse ++ [ArgsItems])%list disk' None (Raise e)
      | Ok config =>
          let '(tr, st) := after_merge args config in
          mkRun (upto_parse ++ [ArgsItems] ++ tr)%list disk' (Some config) st
      end
  end.

End Main.

(** Counting the external calls in a trace of [capture]. *)
Definition is_capture (e : event) : bool :=
  match e with Capture => true | _ => false end.

Definition is_finish (e : event) : bool :=
  match e with FinishCapture => true | _ => false end.

Definition is_prepare (e : event) : bool :=
  match e with PrepareCapture => true | _ => false end.

Definition calls (f : event -> bool) (tr : list event) : nat :=
  length (List.filter f tr).

(** Every device has a truthy [orientation]. *)
Definition all_configured (w : Workflow) : bool :=
  forallb (fun x => py_truthy (orientation x)) (devices w).

(** Every key the merge writes is bare or of the form [section.key]. *)
Definition well_formed_keys (args : namespace) : Prop :=
  forall k v, List.In (k, v) args -> v <> PNone -> k <> "func" ->
              (count_char "." k <= 1)%nat.

(** The events of a run of [main] that follow the merge loop. *)
Fixpoint events_after_merge (tr : list main_event) : list main_event :=
  match tr with
  | [] => []
  | ArgsItems :: rest => rest
  | _ :: rest => events_after_merge rest
  end.

(** An access to the raw parsed arguments. *)
Definition reads_args (e : main_event) : bool :=
  match e with
  | ArgsItems | ArgsGet _ => true
  | _ => false
  end.

Definition is_dump (e : main_event) : bool :=
  match e with Dump _ => true | _ => false end.

(** An occurrence on the command line that sets the destination [dest]. *)
Definition touches (dest : string) (p : ArgumentParser) (o : occurrence)
  : bool :=
  match find_action (occ_flag o) p with
  | Some a => String.eqb (a_dest a) dest
  | None => false
  end.

(** An option whose value is neither text, boolean, float nor integer and
    which is not selectable. *)
Definition unsupported (opt : PluginOption) : bool :=
  negb (selectable opt) &&
  match value opt with
  | PStr _ | PBool _ | PFloat _ | PInt _ => false
  | _ => true
  end.

(** ** postprocess, output and wizard *)

(** Steps of the wizard: its banners, the events of the capture handler
    and the calls of [workflow.process()] and [workflow.output()]. *)
Inductive wizard_event : Type :=
| Banner (text : string)
| FromCapture (e : event)
| Process
| Output.

Definition nl : string := String (ascii_of_nat 10) EmptyString.

(** [print(a, b, c)] writes its arguments separated by one space. *)
Definition capture_banner : string :=
  "==========================" +:+ nl +:+ " " +:+
  "Starting capturing process" +:+ nl +:+ " " +:+
  "==========================".

Definition postprocess_banner : string :=
  "=======================" +:+ nl +:+
  "Starting postprocessing" +:+ nl +:+
  "=======================".

Definition output_banner : string :=
  "=================" +:+ nl +:+ " " +:+
  "Generating output" +:+ nl +:+
  "=================".

Definition outcome_of (r : result unit) : outcome unit :=
  match r with
  | Ok _ => Returned tt
  | Raise e => Raised e
  end.

(** [postprocess(workflow)] and [output(workflow)]; the argument is what
    the call into the workflow does. *)
Definition postprocess (process : result unit)
  : list wizard_event * outcome unit :=
  ([Process], outcome_of process).

Definition output (generate : result unit)
  : list wizard_event * outcome unit :=
  ([Output], outcome_of generate).

Definition wizard (w : Workflow) (keys : list string) (clock : nat -> Q)
    (process generate : result unit) : list wizard_event * outcome unit :=
  let '(tr, out) := capture w keys clock in
  let captured := (Banner capture_banner :: map FromCapture tr)%list in
  match out with
  | Returned _ =>
      let '(tp, op) := postprocess process in
      let processed := (captured ++ Banner postprocess_banner :: tp)%list in
      match op with
      | Returned _ =>
          let '(tg, og) := output generate in
          ((processed ++ Banner output_banner :: tg)%list, og)
      | Raised e => (processed, Raised e)
      | Blocked => (processed, Blocked)
      end
  | Raised e => (captured, Raised e)
  | Blocked => (captured, Blocked)
  end.

Definition is_process (e : wizard_event) : bool :=
  match e with Process => true | _ => false end.

Definition is_output (e : wizard_event) : bool :=
  match e with Output => true | _ => false end.

(** ** setup_parser: the fixed part of the surface *)

(** The root parser and the four subcommand parsers.  The subparsers
    action of the root, which has no destination, and the subcommands
    plugins add through [add_command_parser] are left out. *)
Record Parsers : Type := mkParsers {
  rootparser : ArgumentParser;
  wizard_parser : ArgumentParser;
  capture_parser : ArgumentParser;
  postprocess_parser : ArgumentParser;
  output_parser : ArgumentParser
}.

Definition verbose_kwargs : Kwargs :=
  {| kw_help := None; kw_dest := "verbose"; kw_type := None;
     kw_metavar := None; kw_action := Some StoreTrue; kw_choices := None;
     kw_default := None |}.

Definition path_kwargs : Kwargs :=
  {| kw_help := Some (HelpPlain "Project path"); kw_dest := "path";
     kw_type := Some TyUnicode; kw_metavar := None; kw_action := None;
     kw_choices := None; kw_default := None |}.

Definition parallel_capture_kwargs : Kwargs :=
  {| kw_help :=
       Some (HelpPlain "Do not trigger capture on multiple devices at once.");
     kw_dest := "parallel_capture"; kw_type := None; kw_metavar := None;
     kw_action := Some StoreFalse; kw_choices := None;
     kw_default := Some (PBool true) |}.

Definition jobs_kwargs : Kwargs :=
  {| kw_help := Some (HelpPlain "Number of concurrent processes");
     kw_dest := "jobs"; kw_type := Some TyInt; kw_metavar := Some "<int>";
     kw_action := None; kw_choices := None; kw_default := Some PNone |}.

Definition capture_hooks : list string :=
  ["prepare_capture"; "capture"; "finish_capture"].

Section SetupParser.

(** [get_relevant_extensions(pluginmanager, hooks)] and
    [get_driver(config).driver.configuration_template()]. *)
Variable get_relevant_extensions : list string -> list Extension.
Variable driver_template : template.

(** The body of the loop over [(capture_parser, wizard_parser)]. *)
Definition add_capture_arguments (parser : ArgumentParser)
  : result ArgumentParser :=
  do parser1 <- add_argument ["--no-parallel-capture"]
                             parallel_capture_kwargs parser;
  Ok (_add_device_arguments driver_template
        (_add_plugin_arguments (get_relevant_extensions capture_hooks)
                               parser1)).

Definition setup_parser : result Parsers :=
  do root1 <- add_argument ["--verbose"; "-v"] verbose_kwargs new_parser;
  do root <- add_argument [] path_kwargs root1;
  let wizard0 := set_defaults "subcommand" (PStr "wizard") new_parser in
  let capture0 := set_defaults "subcommand" (PStr "capture") new_parser in
  do capture1 <- add_capture_arguments capture0;
  do wizard1 <- add_capture_arguments wizard0;
  do postprocess0 <- add_argument ["--jobs"; "-j"] jobs_kwargs new_parser;
  let postprocess1 :=
    set_defaults "subcommand" (PStr "postprocess") postprocess0 in
  let postprocess2 :=
    _add_plugin_arguments (get_relevant_extensions ["process"]) postprocess1 in
  let wizard2 :=
    _add_plugin_arguments (get_relevant_extensions ["process"]) wizard1 in
  let output0 := set_defaults "subcommand" (PStr "output") new_parser in
  let output1 :=
    _add_plugin_arguments (get_relevant_extensions ["output"]) output0 in
  let wizard3 :=
    _add_plugin_arguments (get_relevant_extensions ["output"]) wizard2 in
  Ok {| rootparser := root; wizard_parser := wizard3;
        capture_parser := capture1; postprocess_parser := postprocess2;
        output_parser := output1 |}.

End SetupParser.

(** The subcommand parsers with the name each one sets as [subcommand]
    and the handler of that name. *)
Definition subcommands : list (string * handler * (Parsers -> ArgumentParser)) :=
  [("wizard", HWizard, wizard_parser);
   ("capture", HCapture, capture_parser);
   ("postprocess", HPostprocess, postprocess_parser);
   ("output", HOutput, output_parser)].

(** [p'] is [p] with further actions registered after the existing ones. *)
Definition extends (p p' : ArgumentParser) : Prop :=
  exists added, actions p' = (actions p ++ added)%list /\
                p_defaults p' = p_defaults p.

(** The flag synthesized for an option, when there is one. *)
Definition flag_of (extname key : string) (opt : PluginOption)
  : option string :=
  match option_flag extname key opt with
  | Ok (flag, _) => Some flag
  | Raise _ => None
  end.

(** Nothing is left to register: every option either has no flag or its
    flag is already on the parser. *)
Definition settled (extname : string) (items : list (string * PluginOption))
    (p : ArgumentParser) : Prop :=
  forall key opt, List.In (key, opt) items ->
    match flag_of extname key opt with
    | Some flag => has_flag flag p = true
    | None => True
    end.

(** The level the logger is given. *)
Definition chosen_level (args : namespace) (config : ConfigNamespace)
  : option Z :=
  match as_choice ["loglevel"] loglevels config, getattr "verbose" args with
  | Ok level, Ok verbose =>
      Some (if py_truthy verbose then logging_DEBUG else level)
  | _, _ => None
  end.

(** The rate shown in the closing line after [n] captures. *)
Definition final_rate (clock : nat -> Q) (devices n : nat) : Q :=
  match n with
  | O => 0
  | S _ => (3600 / (clock n - clock 0%nat) * Q_of_nat (n * devices))%Q
  end.

Definition from_capture (e : wizard_event) : bool :=
  match e with FromCapture _ => true | _ => false end.

Definition is_text (v : pyval) : bool :=
  match v with PStr _ => true | _ => false end.



(** The arguments [setup_parser] itself registers on a subcommand parser,
    ahead of anything that comes from a template. *)
Definition fixed_actions (name : string) : list Action :=
  if String.eqb name "wizard" || String.eqb name "capture" then
    [make_action ["--no-parallel-capture"] parallel_capture_kwargs new_parser]
  else if String.eqb name "postprocess" then
    [make_action ["--jobs"; "-j"] jobs_kwargs new_parser]
  else [].

(** An action registered by flag synthesis: one flag, and a destination
    qualified by its owner. *)
Definition synthesized (a : Action) : Prop :=
  Nat.le 1 (count_char "." (a_dest a)) /\
  exists flag, option_strings a = [flag].

(** The steps of [main] that come after the merge loop. *)
Definition is_late (e : main_event) : bool :=
  match e with
  | ConfigGet _ | ArgsGet _ | LoggerSetup _ | NewWorkflow _ | Call _
  | Deinit => true
  | _ => false
  end.

(** * Properties *)

Local Open Scope list_scope.

(** ** Flag synthesis *)

Lemma add_argument_fresh (f : string) (kw : Kwargs) (p : ArgumentParser) :
  has_flag f p = false ->
  add_argument [f] kw p =
  Ok {| actions := actions p ++ [make_action [f] kw p];
        p_defaults := p_defaults p |}.
Proof.
  intros Hfresh. unfold add_argument. simpl. now rewrite Hfresh.
Qed.

Lemma add_argument_taken (f : string) (kw : Kwargs) (p : ArgumentParser) :
  has_flag f p = true -> add_argument [f] kw p = Raise (ArgumentError f).
Proof.
  intros Htaken. unfold add_argument. simpl. now rewrite Htaken.
Qed.

Lemma add_argument_appends (f : string) (kw : Kwargs) (p p' : ArgumentParser) :
  add_argument [f] kw p = Ok p' ->
  actions p' = actions p ++ [make_action [f] kw p].
Proof.
  unfold add_argument. simpl. destruct (has_flag f p); [discriminate|].
  intros [= <-]. reflexivity.
Qed.

Lemma unsupported_raises (extname key : string) (opt : PluginOption) :
  unsupported opt = true ->
  option_flag extname key opt = Raise UnsupportedOptionType.
Proof.
  unfold unsupported, option_flag.
  destruct (selectable opt); simpl; [discriminate|].
  destruct (value opt); simpl; intros H; try discriminate; reflexivity.
Qed.

(** C5, as the code has it: a boolean option with default [v] yields at
    most one action, never a pair.  Its flag is [--no-<key>] for
    [v = true] and [--<key>] for [v = false], without the owner's name.
    For an option that is not selectable and whose flag is free on the
    parser exactly one action is appended: for [v = true] with help text
    "Disable <docstring in lower case>" and action [store_false], for
    [v = false] with the docstring as help and action [store_true];
    giving the flag stores the negation of [v].  When the flag is taken
    already, registering raises a conflict, and for a selectable option
    taking the first choice of a boolean raises a type error: in both
    cases nothing is added. *)
Theorem boolean_option_flag_when_free
    (extname key : string) (opt : PluginOption) (v : bool)
    (p : ArgumentParser) :
  value opt = PBool v ->
  let flag := (if v then "--no-" else "--") +:+ key in
  if selectable opt then
    exists msg,
      _add_argument_from_option extname key opt p = Raise (TypeError msg)
  else if has_flag flag p then
    _add_argument_from_option extname key opt p = Raise (ArgumentError flag)
  else
    exists a : Action,
      _add_argument_from_option extname key opt p =
        Ok {| actions := actions p ++ [a]; p_defaults := p_defaults p |} /\
      option_strings a = [flag] /\
      a_dest a = extname +:+ "." +:+ key /\
      a_kind a = (if v then StoreFalse else StoreTrue) /\
      a_help a = Some (HelpPlain (if v then "Disable " +:+ lower (docstring opt)
                                  else docstring opt)) /\
      forall py_int py_float ns,
        take_action py_int py_float a None ns =
          Ok (setattr (extname +:+ "." +:+ key) (PBool (negb v)) ns).
Proof.
  intros Hval flag. subst flag.
  unfold _add_argument_from_option, option_flag.
  rewrite Hval. destruct (selectable opt); cbn [negb bind].
  { eexists. reflexivity. }
  destruct (has_flag ((if v then "--no-" else "--") +:+ key) p) eqn:Htaken;
    destruct v; cbn [negb bind].
  - now apply add_argument_taken.
  - now apply add_argument_taken.
  - rewrite (add_argument_fresh _ _ _ Htaken).
    eexists; split; [reflexivity|]. repeat split.
  - rewrite (add_argument_fresh _ _ _ Htaken).
    eexists; split; [reflexivity|]. repeat split.
Qed.

Lemma boolean_option_flag_when_free_witness :
  let opt := mkOption (PBool true) "Skip the GUI" false in
  (exists a : Action,
      _add_argument_from_option "scantailor" "autopilot" opt new_parser =
        Ok {| actions := actions new_parser ++ [a];
              p_defaults := p_defaults new_parser |} /\
      option_strings a = ["--no-autopilot"] /\
      a_dest a = "scantailor.autopilot" /\
      a_kind a = StoreFalse /\
      a_help a = Some (HelpPlain "Disable skip the gui") /\
      forall py_int py_float ns,
        take_action py_int py_float a None ns =
          Ok (setattr "scantailor.autopilot" (PBool false) ns)) /\
  _add_argument_from_option "scantailor" "help"
      (mkOption (PBool false) "Show hints" false) new_parser =
    Raise (ArgumentError "--help").
Proof.
  intros opt. split.
  - exact (boolean_option_flag_when_free "scantailor" "autopilot" opt true
             new_parser eq_refl).
  - exact (boolean_option_flag_when_free "scantailor" "help"
             (mkOption (PBool false) "Show hints" false) false
             new_parser eq_refl).
Defined.

(** C5 as stated fails: flags are not qualified by their owner, so the
    boolean option of a second extension that uses the same key finds its
    flag taken.  The conflict is swallowed and the option gets no action
    at all. *)
Lemma second_owner_boolean_option_gets_no_flag :
  let flip := mkOption (PBool false) "Flip the page" false in
  let exts := [mkExtension "autorotate" (Some [("flip", flip)]);
               mkExtension "scantailor" (Some [("flip", flip)])] in
  let p := _add_plugin_arguments exts new_parser in
  _add_argument_from_option "scantailor" "flip" flip
      (_add_plugin_arguments [mkExtension "autorotate" (Some [("flip", flip)])]
                             new_parser) =
    Raise (ArgumentError "--flip") /\
  map a_dest (actions p) = ["help"; "autorotate.flip"] /\
  existsb (fun a => String.eqb (a_dest a) "scantailor.flip") (actions p) = false.
Proof. intros flip exts p. repeat split. Qed.

Lemma py_eqb_str (s : string) (x : pyval) :
  py_eqb (PStr s) x = true <-> x = PStr s.
Proof.
  destruct x; simpl; split; try discriminate; try congruence.
  - intros H. apply String.eqb_eq in H. now subst.
  - intros [= ->]. apply String.eqb_refl.
Qed.

Lemma py_in_str (s : string) (l : list pyval) :
  py_in (PStr s) l = true <-> In (PStr s) l.
Proof.
  unfold py_in. rewrite existsb_exists. split.
  - intros (x & Hin & Heq). apply py_eqb_str in Heq. now subst.
  - intros Hin. exists (PStr s). split; [assumption|]. now apply py_eqb_str.
Qed.

Lemma str_items_head (i : nat) (x : pyval) (l : list pyval) (r : list string) :
  str_items i (x :: l) = Ok r -> exists s, x = PStr s.
Proof.
  destruct x; simpl; try discriminate. eauto.
Qed.

Lemma str_items_map (l : list string) :
  forall i, str_items i (map PStr l) = Ok l.
Proof.
  induction l as [|x l IH]; intros i; simpl; [reflexivity|]. now rewrite IH.
Qed.

(** C6, as the code has it: a selectable option whose choices are a
    non-empty sequence of strings yields a flag exactly when [--<key>] is
    still free; a taken flag raises a conflict.  The flag is registered
    with exactly the declared choices: a command-line value is accepted
    exactly when it decodes (is plain ASCII) and is one of them.  The first
    choice is the default shown in the help text only; no default is passed
    at registration, so the flag's own default is what the parser holds
    for the destination, and [None] when it holds nothing. *)
Theorem selectable_option_choices_and_help_default
    (py_int : string -> option Z) (py_float : string -> option Q)
    (extname key : string) (opt : PluginOption) (c : string)
    (cs : list string) (p : ArgumentParser) :
  selectable opt = true ->
  value opt = PSeq (map PStr (c :: cs)) ->
  if has_flag ("--" +:+ key) p then
    _add_argument_from_option extname key opt p =
      Raise (ArgumentError ("--" +:+ key))
  else
    exists a : Action,
      _add_argument_from_option extname key opt p =
        Ok {| actions := actions p ++ [a]; p_defaults := p_defaults p |} /\
      option_strings a = ["--" +:+ key] /\
      a_dest a = extname +:+ "." +:+ key /\
      a_choices a = Some (PSeq (map PStr (c :: cs))) /\
      a_help a = Some (HelpDefault (docstring opt) (PStr c)) /\
      a_default a =
        Some (match assoc (extname +:+ "." +:+ key) (p_defaults p) with
              | Some d => d
              | None => PNone
              end) /\
      forall s ns,
        is_ok (take_action py_int py_float a (Some s) ns) = true <->
        is_ascii s = true /\ In (PStr s) (map PStr (c :: cs)).
Proof.
  intros Hsel Hval.
  unfold _add_argument_from_option, option_flag.
  rewrite Hsel, Hval. cbn [negb map py_getitem0 bind py_join].
  change (PStr c :: map PStr cs) with (map PStr (c :: cs)).
  rewrite str_items_map. cbn [bind].
  destruct (has_flag ("--" +:+ key) p) eqn:Hfresh.
  { now apply add_argument_taken. }
  rewrite (add_argument_fresh _ _ _ Hfresh).
  eexists. split; [reflexivity|].
  split; [reflexivity|]. split; [reflexivity|]. split; [reflexivity|].
  split; [reflexivity|]. split.
  { unfold make_action. cbn.
    now destruct (assoc (extname +:+ "." +:+ key) (p_defaults p)). }
  intros s ns.
  unfold take_action, get_value, check_value, call_type, usage_error.
  cbn -[py_in In map is_ascii].
  destruct (is_ascii s); cbn -[py_in In map].
  - destruct (py_in (PStr s) (map PStr (c :: cs))) eqn:Hin; cbn -[In map].
    + apply py_in_str in Hin. tauto.
    + split; [discriminate|]. intros [_ Habs].
      apply py_in_str in Habs. congruence.
  - split; [discriminate|]. intros [Habs _]. discriminate.
Qed.

Lemma selectable_option_choices_and_help_default_witness :
  let py_int := fun _ : string => @None Z in
  let py_float := fun _ : string => @None Q in
  let opt := mkOption (PSeq [PStr "left"; PStr "right"]) "Rotation" true in
  exists a : Action,
    _add_argument_from_option "device" "rotation" opt new_parser =
      Ok {| actions := actions new_parser ++ [a];
            p_defaults := p_defaults new_parser |} /\
    option_strings a = ["--rotation"] /\
    a_dest a = "device.rotation" /\
    a_choices a = Some (PSeq [PStr "left"; PStr "right"]) /\
    a_help a = Some (HelpDefault "Rotation" (PStr "left")) /\
    a_default a = Some PNone /\
    forall s ns,
      is_ok (take_action py_int py_float a (Some s) ns) = true <->
      is_ascii s = true /\ In (PStr s) [PStr "left"; PStr "right"].
Proof.
  intros py_int py_float opt.
  exact (selectable_option_choices_and_help_default py_int py_float
           "device" "rotation" opt "left" ["right"] new_parser
           eq_refl eq_refl).
Defined.

(** C6 as stated fails: the flag registered for a selectable option has
    no default of its own.  Its default is [None], not the first choice,
    and a parse without the flag leaves [None] under its destination.
    Nor is every declared choice accepted: one outside ASCII does not
    decode and is a usage error.  And not every selectable option gets a
    flag: choices that are not strings cannot be joined for the metavar,
    and a flag that is taken is refused. *)
Lemma selectable_flag_default_is_none :
  let py_int := fun _ : string => @None Z in
  let py_float := fun _ : string => @None Q in
  let opt := mkOption (PSeq [PStr "left"; PStr "right"]) "Rotation" true in
  let accented := String (ascii_of_nat 233) "t" in
  (exists (a : Action) (p' : ArgumentParser),
     _add_argument_from_option "device" "rotation" opt new_parser = Ok p' /\
     actions p' = actions new_parser ++ [a] /\
     a_choices a = Some (PSeq [PStr "left"; PStr "right"]) /\
     a_default a = Some PNone /\
     a_default a <> Some (PStr "left") /\
     exists ns,
       parse_known_args py_int py_float p' [] [] = Ok ns /\
       assoc "device.rotation" ns = Some PNone) /\
  (exists (a : Action) (p' : ArgumentParser),
     _add_argument_from_option "device" "season"
         (mkOption (PSeq [PStr accented; PStr "hiver"]) "Season" true)
         new_parser = Ok p' /\
     actions p' = actions new_parser ++ [a] /\
     a_choices a = Some (PSeq [PStr accented; PStr "hiver"]) /\
     forall ns, take_action py_int py_float a (Some accented) ns =
                  usage_error) /\
  is_ok (_add_argument_from_option "device" "dpi"
           (mkOption (PSeq [PInt 300; PInt 600]) "Resolution" true)
           new_parser) = false /\
  _add_argument_from_option "device" "help" opt new_parser =
    Raise (ArgumentError "--help").
Proof.
  intros py_int py_float opt accented. split; [|split; [|split]].
  - eexists. eexists. split; [reflexivity|]. split; [reflexivity|].
    split; [reflexivity|]. split; [reflexivity|]. split; [discriminate|].
    eexists. split; reflexivity.
  - eexists. eexists. split; [reflexivity|]. split; [reflexivity|].
    split; [reflexivity|]. intros ns. reflexivity.
  - reflexivity.
  - reflexivity.
Qed.

(** A selectable option whose choices are a non-empty list of strings is
    registered whenever its flag is free, and no parser default is
    installed for it: a flag that is not given leaves [None] behind. *)
Lemma selectable_strings_registered
    (extname key doc : string) (c : string) (cs : list string)
    (p : ArgumentParser) :
  has_flag ("--" +:+ key) p = false ->
  assoc (extname +:+ "." +:+ key) (p_defaults p) = None ->
  exists a : Action,
    _add_argument_from_option extname key
        (mkOption (PSeq (map PStr (c :: cs))) doc true) p =
      Ok {| actions := actions p ++ [a]; p_defaults := p_defaults p |} /\
    a_default a = Some PNone /\
    a_metavar a = Some ("<" +:+ join "/" (c :: cs) +:+ ">").
Proof.
  intros Hfresh Hdef.
  assert (Hstr : forall i l, str_items i (map PStr l) = Ok l).
  { intros i l. revert i. induction l as [|x l IH]; intros i; simpl;
      [reflexivity|]. now rewrite IH. }
  unfold _add_argument_from_option, option_flag.
  cbn [selectable value negb py_getitem0 map bind py_join].
  change (PStr c :: map PStr cs) with (map PStr (c :: cs)).
  rewrite Hstr. cbn [bind].
  rewrite (add_argument_fresh _ _ _ Hfresh).
  eexists; split; [reflexivity|]. split; [|reflexivity].
  unfold make_action. cbn. now rewrite Hdef.
Qed.

(** ** Unsupported option types *)

Lemma unsupported_not_added (extname key : string) (opt : PluginOption)
    (p : ArgumentParser) :
  unsupported opt = true ->
  _add_argument_from_option extname key opt p = Raise UnsupportedOptionType.
Proof.
  intros H. unfold _add_argument_from_option.
  now rewrite (unsupported_raises _ _ _ H).
Qed.

Lemma device_loop_stops (key : string) (opt : PluginOption)
    (pre post : list (string * PluginOption)) (p : ArgumentParser) :
  unsupported opt = true ->
  device_loop (pre ++ (key, opt) :: post) p = device_loop pre p.
Proof.
  intros H. revert p. induction pre as [|[k o] pre IH]; intros p; simpl.
  - now rewrite (unsupported_not_added _ _ _ _ H).
  - destruct (_add_argument_from_option "device" k o p); [apply IH|reflexivity].
Qed.

Lemma plugin_loop_skips (extname key : string) (opt : PluginOption)
    (pre post : list (string * PluginOption)) (p : ArgumentParser) :
  unsupported opt = true ->
  plugin_loop extname (pre ++ (key, opt) :: post) p =
  plugin_loop extname (pre ++ post) p.
Proof.
  intros H. revert p. induction pre as [|[k o] pre IH]; intros p; simpl.
  - now rewrite (unsupported_not_added _ _ _ _ H).
  - destruct (_add_argument_from_option extname k o p); apply IH.
Qed.

(** C2, as the code has it: an option of an unsupported type fails with
    the "Unsupported option type" error on every parser.  In the driver's
    template the options after it are not attempted: the outcome is that
    of the template cut before the failing option.  In an extension's
    template only the failing option is dropped: the outcome is that of
    the template without it, so the options after it are still
    attempted. *)
Theorem unsupported_option_driver_stops_extension_skips
    (extname key : string) (opt : PluginOption)
    (pre post : list (string * PluginOption)) (p : ArgumentParser) :
  unsupported opt = true ->
  (forall q, _add_argument_from_option extname key opt q =
             Raise UnsupportedOptionType) /\
  _add_device_arguments (Some (pre ++ (key, opt) :: post)) p =
    _add_device_arguments (Some pre) p /\
  _add_plugin_arguments [mkExtension extname (Some (pre ++ (key, opt) :: post))] p =
    _add_plugin_arguments [mkExtension extname (Some (pre ++ post))] p.
Proof.
  intros H. split; [|split].
  - intros q. now apply unsupported_not_added.
  - unfold _add_device_arguments.
    destruct (pre ++ (key, opt) :: post) eqn:E;
      [now destruct pre|]. rewrite <- E.
    rewrite device_loop_stops by assumption. now destruct pre.
  - cbn [_add_plugin_arguments ext_template ext_name].
    destruct (pre ++ (key, opt) :: post) eqn:E;
      [now destruct pre|]. rewrite <- E.
    rewrite plugin_loop_skips by assumption.
    now destruct (pre ++ post).
Qed.

Lemma unsupported_option_driver_stops_extension_skips_witness :
  let broken := mkOption PNone "Path to the binary" false in
  let good := mkOption (PBool false) "Autopilot" false in
  unsupported broken = true /\
  (forall q, _add_argument_from_option "scantailor" "binary" broken q =
             Raise UnsupportedOptionType) /\
  _add_device_arguments (Some ([] ++ ("binary", broken) :: [("auto", good)]))
      new_parser =
    _add_device_arguments (Some []) new_parser /\
  _add_plugin_arguments
      [mkExtension "scantailor"
         (Some ([] ++ ("binary", broken) :: [("auto", good)]))] new_parser =
    _add_plugin_arguments
      [mkExtension "scantailor" (Some ([] ++ [("auto", good)]))] new_parser.
Proof.
  intros broken good. split; [reflexivity|].
  apply (unsupported_option_driver_stops_extension_skips
           "scantailor" "binary" broken [] [("auto", good)] new_parser).
  reflexivity.
Defined.

(** C2 as stated fails for extensions: the option after the unsupported
    one is attempted and its flag is registered. *)
Lemma extension_continues_after_unsupported_option :
  let broken := mkOption PNone "Path to the binary" false in
  let good := mkOption (PBool false) "Autopilot" false in
  let ext := mkExtension "scantailor"
               (Some [("binary", broken); ("auto", good)]) in
  unsupported broken = true /\
  _add_argument_from_option "scantailor" "binary" broken new_parser =
    Raise UnsupportedOptionType /\
  has_flag "--auto" new_parser = false /\
  has_flag "--auto" (_add_plugin_arguments [ext] new_parser) = true /\
  ~ (forall p, has_flag "--auto" (_add_plugin_arguments [ext] p) =
               has_flag "--auto" p).
Proof.
  intros broken good ext. repeat split.
  intros H. specialize (H new_parser). discriminate H.
Qed.

(** ** The capture handler *)

Lemma existsb_negb_forallb {A : Type} (f : A -> bool) (l : list A) :
  existsb (fun x => negb (f x)) l = negb (forallb f l).
Proof.
  induction l as [|x l IH]; simpl; [reflexivity|].
  rewrite IH. now destruct (f x).
Qed.




Lemma is_capture_key_In (w : Workflow) (k : string) :
  is_capture_key w k = true <-> In (lower k) (capture_keys w).
Proof.
  unfold is_capture_key. rewrite existsb_exists. split.
  - intros (x & Hin & Heq). apply String.eqb_eq in Heq. now subst.
  - intros Hin. exists (lower k). split; [assumption|apply String.eqb_refl].
Qed.

Lemma elapsed_zero (start now : Q) :
  Qeq_bool (now - start) 0 = true <-> (now == start)%Q.
Proof.
  rewrite Qeq_bool_iff. split; intros H.
  - assert (E : (now == (now - start) + start)%Q) by ring.
    rewrite E, H. ring.
  - rewrite H. ring.
Qed.

Lemma rate_zero_elapsed (start now : Q) (shot_count : nat) :
  (now == start)%Q -> rate start now shot_count = Raise ZeroDivisionError.
Proof.
  intros H. unfold rate, py_truediv.
  now rewrite (proj2 (elapsed_zero start now) H).
Qed.

Lemma rate_nonzero_elapsed (start now : Q) (shot_count : nat) :
  ~ (now == start)%Q ->
  rate start now shot_count =
    Ok (3600 / (now - start) * Q_of_nat shot_count)%Q.
Proof.
  intros H. unfold rate, py_truediv.
  destruct (Qeq_bool (now - start) 0) eqn:E; [|reflexivity].
  now apply elapsed_zero in E.
Qed.

(** The worked example of the rate formula: ten pages after five seconds. *)
Example rate_ten_pages_five_seconds :
  exists r, rate 0 5 10 = Ok r /\ (r == 7200)%Q.
Proof. eexists. split; reflexivity. Qed.

Lemma calls_app (f : event -> bool) (a b : list event) :
  calls f (a ++ b) = (calls f a + calls f b)%nat.
Proof. unfold calls. now rewrite List.filter_app, length_app. Qed.

Lemma capture_loop_until_other_key
    (w : Workflow) (start : Q) (clock : nat -> Q) (key : string)
    (rest : list string) :
  is_capture_key w key = false ->
  forall pre tick shot pph,
    forallb (is_capture_key w) pre = true ->
    (forall i, (tick <= i < tick + length pre)%nat -> ~ (clock i == start)%Q) ->
    exists tr pph',
      capture_loop w start clock tick (pre ++ key :: rest) shot pph =
        (tr, Returned ((shot + length pre * length (devices w))%nat, pph',
                       (tick + length pre)%nat)) /\
      calls is_capture tr = length pre /\
      calls is_finish tr = 0%nat /\
      calls is_prepare tr = 0%nat.
Proof.
  intros Hkey. induction pre as [|k pre IH]; intros tick shot pph Hall Hclock.
  - simpl. rewrite Hkey. simpl. exists [], pph.
    rewrite !Nat.add_0_r. repeat split.
  - simpl in Hall. apply andb_true_iff in Hall as [Hk Hall].
    cbn [app capture_loop]. rewrite Hk. cbn [negb].
    rewrite rate_nonzero_elapsed by (apply Hclock; simpl; lia).
    destruct (IH (S tick) (shot + length (devices w))%nat
                 (3600 / (clock tick - start) *
                  Q_of_nat (shot + length (devices w)))%Q Hall)
      as (tr & pph' & Hrun & Hc & Hf & Hp).
    { intros i Hi. apply Hclock. simpl. lia. }
    rewrite Hrun. eexists. exists pph'. split.
    + f_equal. f_equal. f_equal; [f_equal|]; simpl; lia.
    + unfold calls in *. simpl. repeat split; lia.
Qed.

(** X21: Keys are compared in lower case.  When the keys read are [pre],
    all capture keys, followed by a key that is not and the clock has moved
    at every shot, [capture] returns normally having triggered exactly one
    capture per key of [pre], none for what follows the first other key,
    and [finish_capture] exactly once, after the last capture. *)
Theorem capture_stops_at_first_other_key_and_finishes_once
    (w : Workflow) (clock : nat -> Q) (pre : list string) (key : string)
    (rest : list string) :
  length (devices w) = 2%nat ->
  all_configured w = true ->
  Forall (fun k => In (lower k) (capture_keys w)) pre ->
  ~ In (lower key) (capture_keys w) ->
  (forall i, (1 <= i <= length pre)%nat -> ~ (clock i == clock 0%nat)%Q) ->
  exists tr body minutes pph,
    capture w (pre ++ key :: rest) clock = (tr, Returned tt) /\
    tr = body ++ [FinishCapture; Summary (2 * length pre) minutes pph] /\
    calls is_capture body = length pre /\
    calls is_capture tr = length pre /\
    calls is_finish tr = 1%nat.
Proof.
  intros Hn Hc Hpre Hkey Hclock.
  assert (Hk : is_capture_key w key = false).
  { destruct (is_capture_key w key) eqn:E; [|reflexivity].
    now apply is_capture_key_In in E. }
  assert (Hall : forallb (is_capture_key w) pre = true).
  { apply forallb_forall. intros k Hin. apply is_capture_key_In.
    rewrite List.Forall_forall in Hpre. now apply Hpre. }
  destruct (capture_loop_until_other_key w (clock 0%nat) clock key rest Hk
              pre 1%nat 0%nat 0%Q Hall) as (tr & pph & Hrun & Hcap & Hfin & _).
  { intros i Hi. apply Hclock. lia. }
  unfold capture. unfold all_configured in Hc.
  rewrite existsb_negb_forallb, Hn, Hc. cbn [Nat.eqb negb].
  rewrite Hrun. rewrite Hn.
  eexists. eexists. eexists. exists pph.
  split; [reflexivity|]. split.
  - replace (0 + length pre * 2)%nat with (2 * length pre)%nat by lia.
    reflexivity.
  - rewrite !calls_app. cbn [app]. unfold calls in *. simpl.
    rewrite Hcap, Hfin. repeat split; lia.
Qed.

Lemma capture_stops_at_first_other_key_and_finishes_once_witness :
  let w := mkWorkflow [mkDevice (PStr "left"); mkDevice (PStr "right")]
                      ["b"; " "] in
  exists tr body minutes pph,
    capture w (["b"; "B"; " "] ++ "q" :: ["b"; "b"]) Q_of_nat =
      (tr, Returned tt) /\
    tr = body ++ [FinishCapture; Summary (2 * 3) minutes pph] /\
    calls is_capture body = 3%nat /\
    calls is_capture tr = 3%nat /\
    calls is_finish tr = 1%nat.
Proof.
  intros w.
  apply (capture_stops_at_first_other_key_and_finishes_once
           w Q_of_nat ["b"; "B"; " "] "q" ["b"; "b"]).
  - reflexivity.
  - reflexivity.
  - repeat (apply List.Forall_cons; [simpl; auto|]). apply List.Forall_nil.
  - simpl. intros [H|[H|[]]]; discriminate H.
  - intros i Hi. unfold Q_of_nat, Qeq. simpl. lia.
Defined.

Lemma capture_loop_never_finishes
    (w : Workflow) (start : Q) (clock : nat -> Q) (keys : list string) :
  forall tick shot pph,
    calls is_finish (fst (capture_loop w start clock tick keys shot pph)) = 0%nat.
Proof.
  induction keys as [|k keys IH]; intros tick shot pph; simpl; [reflexivity|].
  destruct (is_capture_key w k); simpl; [|reflexivity].
  destruct (rate start (clock tick) (shot + length (devices w))); [|reflexivity].
  specialize (IH (S tick) (shot + length (devices w))%nat a).
  destruct (capture_loop _ _ _ _ _ _ _) as [tr out]. exact IH.
Qed.

(** X2: On every run, whatever the keys and the clock, [finish_capture] is
    called once if [capture] returns and not at all otherwise. *)
Lemma finish_capture_called_iff_returned
    (w : Workflow) (keys : list string) (clock : nat -> Q) :
  calls is_finish (fst (capture w keys clock)) =
    match snd (capture w keys clock) with
    | Returned _ => 1%nat
    | _ => 0%nat
    end.
Proof.
  unfold capture.
  destruct (negb (length (devices w) =? 2)%nat); [reflexivity|].
  destruct (existsb _ (devices w)); [reflexivity|].
  pose proof (capture_loop_never_finishes w (clock 0%nat) clock keys 1 0 0%Q)
    as Hloop.
  destruct (capture_loop _ _ _ _ _ _ _) as [tr out].
  destruct out as [[[shot pph] tick]|e|]; cbn [fst snd] in *.
  - rewrite calls_app. change (_ :: _ :: _ :: _ :: tr)
      with ([Print ("Found " +:+ str_of_nat (length (devices w)) +:+ " devices!");
             Print "Setting up devices for capturing."; PrepareCapture;
             Print "Press 'b' to capture."] ++ tr).
    rewrite calls_app, Hloop. reflexivity.
  - exact Hloop.
  - exact Hloop.
Qed.

(** C1: the rate is [3600 / elapsed * shot_count] with no guard on the
    divisor.  When the clock has not moved between the start of the loop
    and the first shot, a capture key makes the division raise
    [ZeroDivisionError]: the handler stops after the capture, with no rate
    of 0 and without reaching [finish_capture]. *)
Theorem capture_zero_elapsed_raises
    (w : Workflow) (clock : nat -> Q) (key : string) (rest : list string) :
  length (devices w) = 2%nat ->
  all_configured w = true ->
  In (lower key) (capture_keys w) ->
  (clock 1%nat == clock 0%nat)%Q ->
  capture w (key :: rest) clock =
    ([Print "Found 2 devices!"; Print "Setting up devices for capturing.";
      PrepareCapture; Print "Press 'b' to capture."; Capture],
     Raised ZeroDivisionError).
Proof.
  intros Hn Hc Hkey Hclock.
  apply is_capture_key_In in Hkey.
  unfold capture. unfold all_configured in Hc.
  rewrite existsb_negb_forallb, Hn, Hc. cbn [Nat.eqb negb capture_loop].
  rewrite Hkey. cbn [negb].
  rewrite rate_zero_elapsed by assumption. reflexivity.
Qed.

Lemma capture_zero_elapsed_raises_witness :
  capture (mkWorkflow [mkDevice (PStr "left"); mkDevice (PStr "right")] ["b"])
          ("b" :: ["q"]) (fun _ => 1000%Q) =
    ([Print "Found 2 devices!"; Print "Setting up devices for capturing.";
      PrepareCapture; Print "Press 'b' to capture."; Capture],
     Raised ZeroDivisionError).
Proof.
  apply (capture_zero_elapsed_raises
           (mkWorkflow [mkDevice (PStr "left"); mkDevice (PStr "right")] ["b"])
           (fun _ => 1000%Q) "b" ["q"]).
  - reflexivity.
  - reflexivity.
  - simpl. auto.
  - reflexivity.
Defined.

Lemma capture_loop_stalled_clock
    (w : Workflow) (start : Q) (clock : nat -> Q) (key : string)
    (rest : list string) :
  is_capture_key w key = true ->
  forall pre tick shot pph,
    forallb (is_capture_key w) pre = true ->
    (forall i, (tick <= i < tick + length pre)%nat -> ~ (clock i == start)%Q) ->
    (clock (tick + length pre)%nat == start)%Q ->
    exists tr,
      capture_loop w start clock tick (pre ++ key :: rest) shot pph =
        (tr, Raised ZeroDivisionError) /\
      calls is_capture tr = S (length pre) /\
      calls is_finish tr = 0%nat.
Proof.
  intros Hkey. induction pre as [|k pre IH];
    intros tick shot pph Hall Hclock Hstall.
  - cbn [app capture_loop]. rewrite Hkey. cbn [negb].
    rewrite Nat.add_0_r in Hstall.
    rewrite rate_zero_elapsed by assumption.
    exists [Capture]. repeat split.
  - simpl in Hall. apply andb_true_iff in Hall as [Hk Hall].
    cbn [app capture_loop]. rewrite Hk. cbn [negb].
    rewrite rate_nonzero_elapsed by (apply Hclock; simpl; lia).
    destruct (IH (S tick) (shot + length (devices w))%nat
                 (3600 / (clock tick - start) *
                  Q_of_nat (shot + length (devices w)))%Q Hall)
      as (tr & Hrun & Hc & Hf).
    { intros i Hi. apply Hclock. simpl. lia. }
    { replace (S tick + length pre)%nat with (tick + length (k :: pre))%nat
        by (simpl; lia). exact Hstall. }
    rewrite Hrun. eexists. split; [reflexivity|].
    unfold calls in *. simpl. split; lia.
Qed.

(** C8: the claim is what the loop is meant to do, and the unguarded
    division of the rate breaks it.  When the clock reads the start time
    again right after a capture, whether the first or a later one, that
    capture makes [capture] raise [ZeroDivisionError]: the loop never
    reaches the first key outside the capture keys, every key after the
    failing one is left unread, and [finish_capture] is not called at
    all. *)
Theorem capture_stalled_clock_never_finishes
    (w : Workflow) (clock : nat -> Q) (pre : list string) (key : string)
    (rest : list string) :
  length (devices w) = 2%nat ->
  all_configured w = true ->
  Forall (fun k => In (lower k) (capture_keys w)) (pre ++ [key]) ->
  (forall i, (1 <= i <= length pre)%nat -> ~ (clock i == clock 0%nat)%Q) ->
  (clock (S (length pre)) == clock 0%nat)%Q ->
  exists tr,
    capture w (pre ++ key :: rest) clock = (tr, Raised ZeroDivisionError) /\
    calls is_capture tr = S (length pre) /\
    calls is_finish tr = 0%nat.
Proof.
  intros Hn Hc Hkeys Hclock Hstall.
  apply List.Forall_app in Hkeys as [Hpre Hkey].
  apply List.Forall_inv in Hkey. apply is_capture_key_In in Hkey.
  assert (Hall : forallb (is_capture_key w) pre = true).
  { apply forallb_forall. intros k Hin. apply is_capture_key_In.
    rewrite List.Forall_forall in Hpre. now apply Hpre. }
  destruct (capture_loop_stalled_clock w (clock 0%nat) clock key rest Hkey
              pre 1%nat 0%nat 0%Q Hall) as (tr & Hrun & Hcap & Hfin).
  { intros i Hi. apply Hclock. lia. }
  { exact Hstall. }
  unfold capture. unfold all_configured in Hc.
  rewrite existsb_negb_forallb, Hn, Hc. cbn [Nat.eqb negb].
  rewrite Hrun. eexists. split; [reflexivity|].
  rewrite !calls_app. unfold calls in *. simpl.
  rewrite Hcap, Hfin. split; reflexivity.
Qed.

Lemma capture_stalled_clock_never_finishes_witness :
  let w := mkWorkflow [mkDevice (PStr "left"); mkDevice (PStr "right")]
                      ["b"; " "] in
  let clock := fun i : nat => if (i =? 1)%nat then 1012%Q else 1000%Q in
  exists tr,
    capture w (["b"] ++ " " :: ["q"]) clock = (tr, Raised ZeroDivisionError) /\
    calls is_capture tr = 2%nat /\
    calls is_finish tr = 0%nat.
Proof.
  intros w clock.
  apply (capture_stalled_clock_never_finishes w clock ["b"] " " ["q"]).
  - reflexivity.
  - reflexivity.
  - repeat (apply List.Forall_cons; [simpl; auto|]). apply List.Forall_nil.
  - intros i Hi. simpl in Hi. assert (i = 1%nat) as -> by lia.
    discriminate.
  - reflexivity.
Defined.

(** ** The merge of parsed arguments into the configuration *)

Lemma split_nonempty (c : ascii) (s : string) : split c s <> [].
Proof.
  destruct s as [|d s]; simpl; [discriminate|].
  destruct (Ascii.eqb c d); [discriminate|].
  destruct (split c s); discriminate.
Qed.

Lemma join_cons2 (sep x y : string) (l : list string) :
  join sep (x :: y :: l) = x +:+ sep +:+ join sep (y :: l).
Proof. reflexivity. Qed.

Lemma join_split (s : string) : join "." (split "." s) = s.
Proof.
  induction s as [|d s IH]; [reflexivity|].
  cbn [split]. pose proof (split_nonempty "." s) as Hne.
  destruct (Ascii.eqb "." d) eqn:E.
  - apply Ascii.eqb_eq in E. subst d.
    destruct (split "." s) as [|w ws]; [contradiction|].
    rewrite join_cons2, IH. reflexivity.
  - destruct (split "." s) as [|w ws]; [contradiction|].
    destruct ws as [|w' ws].
    + simpl in *. now rewrite IH.
    + rewrite join_cons2 in *. rewrite <- IH. reflexivity.
Qed.

Lemma split_inj (s t : string) : split "." s = split "." t -> s = t.
Proof.
  intros H. rewrite <- (join_split s), <- (join_split t). now rewrite H.
Qed.

Lemma split_length (c : ascii) (s : string) :
  length (split c s) = S (count_char c s).
Proof.
  induction s as [|d s IH]; [reflexivity|].
  simpl. destruct (Ascii.eqb c d); simpl; [now rewrite IH|].
  destruct (split c s); simpl in *; [discriminate|exact IH].
Qed.

Lemma split_bare (c : ascii) (s : string) :
  count_char c s = 0%nat -> split c s = [s].
Proof.
  induction s as [|d s IH]; [reflexivity|].
  simpl. destruct (Ascii.eqb c d); [discriminate|].
  intros H. now rewrite (IH H).
Qed.

Lemma split_dotted (section key : string) :
  count_char "." section = 0%nat ->
  count_char "." key = 0%nat ->
  split "." (section +:+ "." +:+ key) = [section; key].
Proof.
  intros Hs Hk. induction section as [|d s IH].
  - change ("" +:+ "." +:+ key) with (String "." key).
    simpl. now rewrite (split_bare _ _ Hk).
  - change (String d s +:+ "." +:+ key) with (String d (s +:+ "." +:+ key)).
    revert Hs. cbn [split count_char].
    destruct (Ascii.eqb "." d); [discriminate|].
    intros Hs. now rewrite (IH Hs).
Qed.

Lemma is_none_false (v : pyval) : is_none v = false <-> v <> PNone.
Proof. destruct v; simpl; split; congruence. Qed.

(** One step of the loop writes the path [split "." argkey]. *)
Lemma merge_args_step (argkey : string) (v : pyval) (rest : namespace)
    (config : ConfigNamespace) :
  v <> PNone -> argkey <> "func" -> (count_char "." argkey <= 1)%nat ->
  merge_args ((argkey, v) :: rest) config =
  merge_args rest (<[split "." argkey := v]> config).
Proof.
  intros Hv Hk Hdots. cbn [merge_args].
  rewrite (proj2 (is_none_false v) Hv).
  destruct (String.eqb argkey "func") eqn:E;
    [apply String.eqb_eq in E; contradiction|].
  cbn [orb]. destruct (0 <? count_char "." argkey)%nat eqn:D.
  - apply Nat.ltb_lt in D.
    pose proof (split_length "." argkey) as Hlen.
    destruct (split "." argkey) as [|a [|b [|c l]]]; simpl in Hlen;
      try lia. reflexivity.
  - apply Nat.ltb_ge in D. rewrite split_bare by lia. reflexivity.
Qed.

Lemma merge_args_skip (argkey : string) (v : pyval) (rest : namespace)
    (config : ConfigNamespace) :
  v = PNone \/ argkey = "func" ->
  merge_args ((argkey, v) :: rest) config = merge_args rest config.
Proof.
  intros H. cbn [merge_args].
  destruct H as [-> | ->]; [reflexivity|].
  now rewrite String.eqb_refl, orb_true_r.
Qed.

Lemma skip_or_write (k : string) (v : pyval) :
  (v = PNone \/ k = "func") \/ (v <> PNone /\ k <> "func").
Proof.
  destruct v; destruct (String.eqb_spec k "func"); auto;
    right; split; congruence.
Qed.

Lemma merge_args_frame (args : namespace) :
  well_formed_keys args ->
  forall config, exists config',
    merge_args args config = Ok config' /\
    forall path : list string,
      (forall k v, In (k, v) args -> v <> PNone -> k <> "func" ->
                   split "." k <> path) ->
      config' !! path = config !! path.
Proof.
  induction args as [|[k v] rest IH]; intros Hwf config.
  - exists config. split; [reflexivity|auto].
  - assert (Hwf' : well_formed_keys rest).
    { intros k' v' Hin. apply Hwf. now right. }
    destruct (skip_or_write k v) as [Hskip|[Hv Hk]].
    + rewrite merge_args_skip by assumption.
      destruct (IH Hwf' config) as (config' & Hrun & Hframe).
      exists config'. split; [assumption|].
      intros path Hpath. apply Hframe.
      intros k' v' Hin. apply Hpath. now right.
    + rewrite merge_args_step by
        (first [assumption | apply (Hwf k v); [now left|assumption..]]).
      destruct (IH Hwf' (<[split "." k := v]> config))
        as (config' & Hrun & Hframe).
      exists config'. split; [assumption|].
      intros path Hpath. rewrite Hframe.
      * apply lookup_insert_ne. apply (Hpath k v); [now left|assumption..].
      * intros k' v' Hin. apply Hpath. now right.
Qed.

Lemma merge_args_written (args : namespace) :
  NoDup (map fst args) ->
  well_formed_keys args ->
  forall config config',
    merge_args args config = Ok config' ->
    forall k v, In (k, v) args -> v <> PNone -> k <> "func" ->
                config' !! split "." k = Some v.
Proof.
  induction args as [|[k0 v0] rest IH]; intros Hnd Hwf config config' Hrun
    k v Hin Hv Hk; [contradiction|].
  simpl in Hnd. apply NoDup_cons in Hnd as [Hfresh Hnd].
  assert (Hwf' : well_formed_keys rest).
  { intros k' v' Hin'. apply Hwf. now right. }
  destruct Hin as [[= -> ->]|Hin].
  - rewrite merge_args_step in Hrun by
      (first [assumption | apply (Hwf k v); [now left|assumption..]]).
    destruct (merge_args_frame rest Hwf' (<[split "." k := v]> config))
      as (config'' & Hrun' & Hframe).
    rewrite Hrun in Hrun'. injection Hrun' as <-.
    rewrite Hframe; [apply lookup_insert_eq|].
    intros k' v' Hin' _ _ Heq. apply split_inj in Heq. subst k'.
    apply Hfresh. apply list_elem_of_In, in_map_iff. now exists (k, v').
  - destruct (skip_or_write k0 v0) as [Hskip|[Hv0 Hk0]].
    + rewrite merge_args_skip in Hrun by assumption.
      now apply (IH Hnd Hwf' config config' Hrun k v).
    + rewrite merge_args_step in Hrun by
        (first [assumption | apply (Hwf k0 v0); [now left|assumption..]]).
      now apply (IH Hnd Hwf' _ config' Hrun k v).
Qed.

Lemma dotted_not_func (section key : string) :
  count_char "." section = 0%nat -> count_char "." key = 0%nat ->
  section +:+ "." +:+ key <> "func".
Proof.
  intros Hs Hk Heq. pose proof (split_dotted section key Hs Hk) as H.
  rewrite Heq in H. discriminate H.
Qed.

Lemma NoDup_fst_functional (args : namespace) (k : string) (v v' : pyval) :
  NoDup (map fst args) -> In (k, v) args -> In (k, v') args -> v = v'.
Proof.
  induction args as [|[k0 v0] rest IH]; intros Hnd Hin Hin'; [contradiction|].
  simpl in Hnd. apply NoDup_cons in Hnd as [Hfresh Hnd].
  assert (Hkey : forall w, In (k0, w) rest -> False).
  { intros w Hw. apply Hfresh, list_elem_of_In, in_map_iff. now exists (k0, w). }
  destruct Hin as [[= -> ->]|Hin], Hin' as [[= <-]|Hin'].
  - reflexivity.
  - destruct (Hkey _ Hin').
  - subst. destruct (Hkey _ Hin).
  - now apply IH.
Qed.

(** C3, as the code has it: the only name the merge skips is [func]; the
    key that selects the handler, [subcommand], is a bare key like any
    other.  For a parse result whose written keys are bare or of the form
    [section.key], the merge succeeds; every entry [section.key] with a
    value other than [None] ends up at [config[section][key]] and every
    bare entry other than [func] with a value other than [None] at
    [config[key]], whatever the configuration held there before; entries
    that are [None] or named [func] leave their own path as it was, and
    so is every path no written entry names. *)
Theorem merge_args_overrides
    (args : namespace) (config : ConfigNamespace) :
  NoDup (map fst args) ->
  well_formed_keys args ->
  exists config' : ConfigNamespace,
    merge_args args config = Ok config' /\
    (forall section key v,
        count_char "." section = 0%nat -> count_char "." key = 0%nat ->
        In (section +:+ "." +:+ key, v) args -> v <> PNone ->
        config' !! [section; key] = Some v) /\
    (forall key v,
        count_char "." key = 0%nat ->
        In (key, v) args -> v <> PNone -> key <> "func" ->
        config' !! [key] = Some v) /\
    (forall k v,
        In (k, v) args -> v = PNone \/ k = "func" ->
        config' !! split "." k = config !! split "." k) /\
    (forall path : list string,
        (forall k v, In (k, v) args -> v <> PNone -> k <> "func" ->
                     split "." k <> path) ->
        config' !! path = config !! path).
Proof.
  intros Hnd Hwf.
  destruct (merge_args_frame args Hwf config) as (config' & Hrun & Hframe).
  pose proof (merge_args_written args Hnd Hwf config config' Hrun) as Hw.
  exists config'. split; [assumption|]. repeat split.
  - intros section key v Hs Hk Hin Hv.
    rewrite <- (split_dotted section key Hs Hk).
    apply Hw; [assumption..|]. now apply dotted_not_func.
  - intros key v Hk Hin Hv Hne.
    rewrite <- (split_bare "." key Hk). now apply Hw.
  - intros k v Hin Hskip. apply Hframe.
    intros k' v' Hin' Hv' Hk' Heq. apply split_inj in Heq. subst k'.
    pose proof (NoDup_fst_functional args k v v' Hnd Hin Hin') as ->.
    destruct Hskip; contradiction.
  - exact Hframe.
Qed.

Lemma merge_args_overrides_witness :
  let args := [("verbose", PBool false); ("path", PStr "/tmp/book");
               ("subcommand", PStr "capture");
               ("device.orientation", PStr "landscape");
               ("jobs", PNone); ("func", PObj "function")] in
  let config : ConfigNamespace :=
    <[ ["device"; "orientation"] := PStr "portrait" ]>
      (<[ ["jobs"] := PInt 4 ]> ∅) in
  exists config' : ConfigNamespace,
    merge_args args config = Ok config' /\
    config' !! ["device"; "orientation"] = Some (PStr "landscape") /\
    config' !! ["subcommand"] = Some (PStr "capture") /\
    config' !! ["jobs"] = Some (PInt 4) /\
    config' !! ["func"] = None.
Proof.
  intros args config.
  destruct (merge_args_overrides args config) as (config' & Hrun & Hd & Hb & Hs & _).
  - repeat (apply NoDup_cons; split;
            [rewrite list_elem_of_In; simpl; intuition discriminate|]).
    apply NoDup_nil. exact I.
  - intros k v Hin _ _. simpl in Hin.
    repeat (destruct Hin as [[= <- <-]|Hin]; [simpl; lia|]). contradiction.
  - exists config'. split; [exact Hrun|]. split; [|split; [|split]].
    + apply (Hd "device" "orientation"); [reflexivity..|simpl; auto 10|discriminate].
    + apply (Hb "subcommand"); [reflexivity|simpl; auto 10|discriminate..].
    + etransitivity;
        [apply (Hs "jobs" PNone); [simpl; auto 10|now left]|reflexivity].
    + etransitivity;
        [apply (Hs "func" (PObj "function")); [simpl; auto 10|now right]
        |reflexivity].
Defined.

(** C3 as stated fails: the key that identifies the handler is
    [subcommand], set by every subcommand parser; no parser produces a key
    [func].  The merge does not skip [subcommand]: it writes it to the
    configuration, where the dispatch reads it.  A key with more than one
    dot is neither skipped nor written: unpacking its parts raises. *)
Lemma dispatch_key_subcommand_is_merged :
  let relevant := fun _ : list string => @nil Extension in
  let py_int := fun _ : string => @None Z in
  let py_float := fun _ : string => @None Q in
  let ns0 := [("verbose", PBool false); ("path", PStr "book")] in
  (exists ps ns,
     setup_parser relevant None = Ok ps /\
     parse_known_args py_int py_float (capture_parser ps) [] ns0 = Ok ns /\
     hasattr "func" ns = false /\
     assoc "subcommand" ns = Some (PStr "capture") /\
     match merge_args ns (∅ : ConfigNamespace) with
     | Ok config => config !! ["subcommand"]
     | Raise _ => None
     end = Some (PStr "capture")) /\
  merge_args [("plugin.sub.key", PStr "x")] (∅ : ConfigNamespace) =
    Raise (ValueError "too many values to unpack").
Proof.
  intros relevant py_int py_float ns0. split; [|reflexivity].
  let ps := eval vm_compute in
              (match setup_parser relevant None with
               | Ok x => x
               | Raise _ => mkParsers new_parser new_parser new_parser
                                      new_parser new_parser
               end) in
  let ns := eval vm_compute in
              (match parse_known_args py_int py_float (capture_parser ps)
                       [] ns0 with
               | Ok n => n
               | Raise _ => ns0
               end) in
  exists ps, ns; repeat split; vm_compute; reflexivity.
Qed.

(** ** main: persistence of defaults and use of the merged configuration *)

(** Case analysis on membership in an explicit list of events. *)
Ltac each_event Hin tac :=
  simpl in Hin;
  repeat (destruct Hin as [Hin|Hin]; [tac Hin|]);
  try contradiction.

Section MainProperties.

Variable run_handler : handler -> ConfigNamespace -> result unit.

Lemma after_merge_no_dump (args : namespace) (config : ConfigNamespace) :
  forallb (fun e => negb (is_dump e))
          (fst (after_merge run_handler args config)) = true.
Proof. unfold after_merge. repeat case_match; reflexivity. Qed.

Lemma after_merge_arg_reads (args : namespace) (config : ConfigNamespace)
    (e : main_event) :
  In e (fst (after_merge run_handler args config)) ->
  reads_args e = true -> e = ArgsGet "verbose".
Proof.
  unfold after_merge. intros Hin Hread.
  repeat case_match;
    each_event Hin ltac:(fun H => subst e; first [discriminate | reflexivity]).
Qed.

Lemma after_merge_depends_on_verbose (args args' : namespace)
    (config : ConfigNamespace) :
  getattr "verbose" args = getattr "verbose" args' ->
  after_merge run_handler args config = after_merge run_handler args' config.
Proof. intros H. unfold after_merge. now rewrite H. Qed.

Lemma after_merge_call (args : namespace) (config : ConfigNamespace)
    (h : handler) :
  In (Call h) (fst (after_merge run_handler args config)) ->
  exists name, config !! ["subcommand"] = Some (PStr name) /\
               globals_lookup name = Ok h.
Proof.
  unfold after_merge, config_get. intros Hin.
  repeat case_match;
    each_event Hin ltac:(fun H => try discriminate H; injection H as <-);
    simplify_eq; eauto.
Qed.

Lemma after_merge_workflow (args : namespace) (config c : ConfigNamespace) :
  In (NewWorkflow c) (fst (after_merge run_handler args config)) -> c = config.
Proof.
  unfold after_merge. intros Hin.
  repeat case_match;
    each_event Hin ltac:(fun H => try discriminate H; now injection H as <-).
Qed.

Lemma main_events_after_merge (file : option ConfigNamespace)
    (config0 config : ConfigNamespace) (args : namespace) :
  merge_args args config0 = Ok config ->
  events_after_merge (trace (main run_handler file config0 (Ok args))) =
    fst (after_merge run_handler args config) /\
  status (main run_handler file config0 (Ok args)) =
    snd (after_merge run_handler args config) /\
  final_config (main run_handler file config0 (Ok args)) = Some config.
Proof.
  intros Hm. unfold main. rewrite Hm.
  destruct (after_merge run_handler args config) as [tr st].
  destruct file; repeat split.
Qed.

(** C4, as the code has it: once the merge has run, what [main] does is
    fixed by the merged configuration and by [args.verbose].  The
    workflow is built from the merged configuration and the handler is
    looked up under [config["subcommand"]]; the only access to the raw
    parsed arguments after the merge is the logger set-up reading
    [args.verbose]. *)
Theorem after_merge_only_verbose_is_read_from_args
    (file : option ConfigNamespace) (config0 config : ConfigNamespace)
    (args args' : namespace) :
  merge_args args config0 = Ok config ->
  merge_args args' config0 = Ok config ->
  getattr "verbose" args = getattr "verbose" args' ->
  let r := main run_handler file config0 (Ok args) in
  let r' := main run_handler file config0 (Ok args') in
  events_after_merge (trace r) = events_after_merge (trace r') /\
  status r = status r' /\
  final_config r = Some config /\
  (forall e, In e (events_after_merge (trace r)) -> reads_args e = true ->
             e = ArgsGet "verbose") /\
  (forall h, In (Call h) (events_after_merge (trace r)) ->
             exists name, config !! ["subcommand"] = Some (PStr name) /\
                          globals_lookup name = Ok h) /\
  (forall c, In (NewWorkflow c) (events_after_merge (trace r)) -> c = config).
Proof.
  intros Hm Hm' Hv r r'. subst r r'.
  destruct (main_events_after_merge file config0 config args Hm)
    as (Htr & Hst & Hfc).
  destruct (main_events_after_merge file config0 config args' Hm')
    as (Htr' & Hst' & _).
  rewrite Htr, Htr', Hst, Hst', Hfc.
  rewrite <- (after_merge_depends_on_verbose args args' config Hv).
  repeat split.
  - apply after_merge_arg_reads.
  - apply after_merge_call.
  - apply after_merge_workflow.
Qed.

End MainProperties.

Lemma after_merge_only_verbose_is_read_from_args_witness :
  let run := fun (_ : handler) (_ : ConfigNamespace) => Ok tt in
  let config0 : ConfigNamespace := <[ ["loglevel"] := PStr "info" ]> ∅ in
  let args := [("verbose", PBool true); ("subcommand", PStr "capture");
               ("jobs", PNone)] in
  let args' := [("subcommand", PStr "capture"); ("verbose", PBool true)] in
  let config : ConfigNamespace :=
    <[ ["subcommand"] := PStr "capture" ]>
      (<[ ["verbose"] := PBool true ]> config0) in
  let r := main run None config0 (Ok args) in
  let r' := main run None config0 (Ok args') in
  events_after_merge (trace r) = events_after_merge (trace r') /\
  status r = status r' /\
  final_config r = Some config /\
  (forall e, In e (events_after_merge (trace r)) -> reads_args e = true ->
             e = ArgsGet "verbose") /\
  (forall h, In (Call h) (events_after_merge (trace r)) ->
             exists name, config !! ["subcommand"] = Some (PStr name) /\
                          globals_lookup name = Ok h) /\
  (forall c, In (NewWorkflow c) (events_after_merge (trace r)) -> c = config).
Proof.
  intros run config0 args args' config.
  apply (after_merge_only_verbose_is_read_from_args run None config0 config
           args args').
  - vm_compute. reflexivity.
  - vm_compute. reflexivity.
  - reflexivity.
Defined.

(** C4 as stated fails: after the merge the logger set-up reads
    [args.verbose].  The read shows in the trace, and the level handed to
    the logger follows the raw argument even under one and the same
    configuration. *)
Lemma logger_setup_reads_raw_verbose :
  let run := fun (_ : handler) (_ : ConfigNamespace) => Ok tt in
  let config0 : ConfigNamespace := <[ ["loglevel"] := PStr "error" ]> ∅ in
  let args := [("verbose", PBool true); ("path", PStr "book");
               ("subcommand", PStr "capture")] in
  let r := main run None config0 (Ok args) in
  status r = Ok tt /\
  existsb reads_args (events_after_merge (trace r)) = true /\
  In (ArgsGet "verbose") (events_after_merge (trace r)) /\
  forall config : ConfigNamespace,
    config !! ["loglevel"] = Some (PStr "error") ->
    In (LoggerSetup 10)
       (fst (after_merge run [("verbose", PBool true)] config)) /\
    In (LoggerSetup 40)
       (fst (after_merge run [("verbose", PBool false)] config)) /\
    after_merge run [("verbose", PBool true)] config <>
    after_merge run [("verbose", PBool false)] config.
Proof.
  intros run config0 args r.
  split; [vm_compute; reflexivity|].
  split; [vm_compute; reflexivity|].
  split; [vm_compute; auto|].
  intros config Hlevel. unfold after_merge, as_choice. rewrite Hlevel.
  cbn [assoc loglevels String.eqb Ascii.eqb Bool.eqb getattr py_truthy].
  unfold config_get.
  destruct (config !! ["subcommand"]) as [[]|]; simpl;
    try (repeat split; auto; discriminate).
  destruct (globals_lookup s); simpl; repeat split; auto; discriminate.
Qed.

Section Persistence.

Variable run_handler : handler -> ConfigNamespace -> result unit.

Lemma main_disk (file : option ConfigNamespace) (config0 : ConfigNamespace)
    (parsed : result namespace) :
  disk (main run_handler file config0 parsed) =
    Some (match file with Some f => f | None => config0 end).
Proof.
  unfold main.
  destruct file, parsed as [args|e]; try reflexivity;
    (destruct (merge_args args config0) as [config|e]; [|reflexivity]);
    now destruct (after_merge run_handler args config).
Qed.

Lemma main_trace (file : option ConfigNamespace) (config0 : ConfigNamespace)
    (parsed : result namespace) :
  exists rest,
    trace (main run_handler file config0 parsed) =
      [ConfigRead; SetupPluginConfig;
       PathExists (match file with Some _ => true | None => false end)] ++
      match file with Some _ => [] | None => [Dump config0] end ++
      [SetupParser; ParseArgs] ++ rest /\
    forallb (fun e => negb (is_dump e)) rest = true.
Proof.
  unfold main.
  destruct parsed as [args|e].
  - destruct (merge_args args config0) as [config|e].
    + pose proof (after_merge_no_dump run_handler args config) as Hnd.
      destruct (after_merge run_handler args config) as [tr st].
      exists (ArgsItems :: tr). destruct file; split; (reflexivity || exact Hnd).
    + exists [ArgsItems]. destruct file; split; reflexivity.
  - exists []. destruct file; split; reflexivity.
Qed.

(** C9: the configuration file is written exactly when none was found,
    it receives the configuration as it stood before any argument was
    parsed, the write comes before [parse_args] and the merge loop and
    nothing is written afterwards.  So the file left behind does not
    depend on the command line: a value is in it only if the
    configuration held it before the merge. *)
Theorem defaults_dumped_before_parsing
    (file : option ConfigNamespace) (config0 : ConfigNamespace)
    (parsed : result namespace) :
  let r := main run_handler file config0 parsed in
  disk r = Some (match file with Some f => f | None => config0 end) /\
  (exists rest,
      trace r =
        [ConfigRead; SetupPluginConfig;
         PathExists (match file with Some _ => true | None => false end)] ++
        match file with Some _ => [] | None => [Dump config0] end ++
        [SetupParser; ParseArgs] ++ rest /\
      forallb (fun e => negb (is_dump e)) rest = true) /\
  (forall parsed', disk (main run_handler file config0 parsed') = disk r) /\
  (file = None ->
   forall written path v,
     disk r = Some written -> written !! path = Some v ->
     config0 !! path = Some v).
Proof.
  intros r. subst r. split; [apply main_disk|].
  split; [apply main_trace|]. split.
  - intros parsed'. now rewrite !main_disk.
  - intros -> written path v. rewrite main_disk. now intros [= <-].
Qed.

End Persistence.

Lemma defaults_dumped_before_parsing_witness :
  let run := fun (_ : handler) (_ : ConfigNamespace) => Ok tt in
  let config0 : ConfigNamespace :=
    <[ ["device"; "orientation"] := PStr "portrait" ]>
      (<[ ["loglevel"] := PStr "info" ]> ∅) in
  let args := [("verbose", PBool false); ("subcommand", PStr "capture");
               ("device.orientation", PStr "landscape")] in
  let r := main run None config0 (Ok args) in
  disk r = Some config0 /\
  (exists config, final_config r = Some config /\
                  config !! ["device"; "orientation"] = Some (PStr "landscape")) /\
  (forall written, disk r = Some written ->
                   written !! ["device"; "orientation"] = Some (PStr "portrait")).
Proof.
  intros run config0 args r.
  pose proof (defaults_dumped_before_parsing run None config0 (Ok args))
    as (Hdisk & _ & _ & _).
  split; [exact Hdisk|]. split.
  - exists (match merge_args args config0 with
            | Ok c => c
            | Raise _ => config0
            end).
    split; vm_compute; reflexivity.
  - intros written Hw. fold r in Hdisk. rewrite Hdisk in Hw.
    injection Hw as <-. reflexivity.
Defined.

(** ** Implied defaults of boolean flags *)

Lemma assoc_setattr_eq (k : string) (v : pyval) (ns : namespace) :
  assoc k (setattr k v ns) = Some v.
Proof.
  induction ns as [|[k' v'] ns IH]; simpl.
  - now rewrite String.eqb_refl.
  - destruct (String.eqb k k') eqn:E; simpl.
    + now rewrite String.eqb_refl.
    + now rewrite E.
Qed.

Lemma assoc_setattr_ne (k k' : string) (v : pyval) (ns : namespace) :
  k <> k' -> assoc k (setattr k' v ns) = assoc k ns.
Proof.
  intros Hne. induction ns as [|[k0 v0] ns IH]; simpl.
  - destruct (String.eqb_spec k k'); [contradiction|reflexivity].
  - destruct (String.eqb_spec k' k0) as [->|Hk0]; simpl.
    + destruct (String.eqb_spec k k0); [contradiction|reflexivity].
    + now rewrite IH.
Qed.

Lemma assoc_In (k : string) (v : pyval) (ns : namespace) :
  assoc k ns = Some v -> In (k, v) ns.
Proof.
  induction ns as [|[k0 v0] ns IH]; simpl; [discriminate|].
  destruct (String.eqb_spec k k0) as [->|_].
  - intros [= ->]. now left.
  - intros H. right. now apply IH.
Qed.

Lemma setattr_keys (k : string) (v : pyval) (ns : namespace) :
  map fst (setattr k v ns) =
    if hasattr k ns then map fst ns else map fst ns ++ [k].
Proof.
  unfold hasattr. induction ns as [|[k0 v0] ns IH]; simpl; [reflexivity|].
  destruct (String.eqb_spec k k0) as [->|Hne]; simpl; [reflexivity|].
  rewrite IH. now destruct (assoc k ns).
Qed.

Lemma hasattr_false_not_key (k : string) (ns : namespace) :
  hasattr k ns = false -> ~ In k (map fst ns).
Proof.
  unfold hasattr. induction ns as [|[k0 v0] ns IH]; simpl; [tauto|].
  destruct (String.eqb_spec k k0) as [->|Hne]; [discriminate|].
  intros H [Heq|Hin]; [congruence|]. now apply IH.
Qed.

Lemma setattr_NoDup (k : string) (v : pyval) (ns : namespace) :
  NoDup (map fst ns) -> NoDup (map fst (setattr k v ns)).
Proof.
  intros Hnd. rewrite setattr_keys.
  destruct (hasattr k ns) eqn:E; [assumption|].
  apply NoDup_app. split; [assumption|]. split.
  - intros x Hx Hin. apply list_elem_of_In in Hx, Hin.
    destruct Hin as [<-|[]]. now apply (hasattr_false_not_key _ _ E).
  - apply NoDup_singleton.
Qed.

Section ParsingProperties.

Variable py_int : string -> option Z.
Variable py_float : string -> option Q.




End ParsingProperties.

Lemma add_action_defaults_NoDup (acts : list Action) :
  forall ns, NoDup (map fst ns) ->
             NoDup (map fst (add_action_defaults acts ns)).
Proof.
  unfold add_action_defaults.
  induction acts as [|a acts IH]; intros ns Hnd; simpl; [assumption|].
  apply IH. destruct (a_default a); [|assumption].
  destruct (hasattr (a_dest a) ns); [assumption|now apply setattr_NoDup].
Qed.

Lemma add_parser_defaults_NoDup (defs : list (string * pyval)) :
  forall ns, NoDup (map fst ns) ->
             NoDup (map fst (add_parser_defaults defs ns)).
Proof.
  unfold add_parser_defaults.
  induction defs as [|d defs IH]; intros ns Hnd; simpl; [assumption|].
  apply IH.
  destruct (hasattr (fst d) ns); [assumption|now apply setattr_NoDup].
Qed.

Lemma add_action_defaults_keeps (dest : string) (x : pyval)
    (acts : list Action) :
  forall ns, assoc dest ns = Some x ->
             assoc dest (add_action_defaults acts ns) = Some x.
Proof.
  unfold add_action_defaults.
  induction acts as [|a acts IH]; intros ns Hx; simpl; [assumption|].
  apply IH. destruct (a_default a); [|assumption].
  destruct (hasattr (a_dest a) ns) eqn:E; [assumption|].
  rewrite assoc_setattr_ne; [assumption|].
  intros Heq. subst dest. unfold hasattr in E. now rewrite Hx in E.
Qed.

Lemma add_parser_defaults_keeps (dest : string) (x : pyval)
    (defs : list (string * pyval)) :
  forall ns, assoc dest ns = Some x ->
             assoc dest (add_parser_defaults defs ns) = Some x.
Proof.
  unfold add_parser_defaults.
  induction defs as [|d defs IH]; intros ns Hx; simpl; [assumption|].
  apply IH. destruct (hasattr (fst d) ns) eqn:E; [assumption|].
  rewrite assoc_setattr_ne; [assumption|].
  intros Heq. subst dest. unfold hasattr in E. now rewrite Hx in E.
Qed.

Lemma add_action_defaults_first (a : Action) (d : pyval)
    (pre post : list Action) :
  a_default a = Some d ->
  (forall b, In b pre -> a_dest b <> a_dest a) ->
  forall ns, hasattr (a_dest a) ns = false ->
             assoc (a_dest a) (add_action_defaults (pre ++ a :: post) ns) =
               Some d.
Proof.
  intros Hd. induction pre as [|b pre IH]; intros Hpre ns Hfree.
  - unfold add_action_defaults. cbn [app fold_left]. rewrite Hd, Hfree.
    apply (add_action_defaults_keeps (a_dest a) d post).
    apply assoc_setattr_eq.
  - unfold add_action_defaults. cbn [app fold_left].
    apply IH; [intros b' Hb'; apply Hpre; now right|].
    destruct (a_default b); [|assumption].
    destruct (hasattr (a_dest b) ns); [assumption|].
    unfold hasattr in *. rewrite assoc_setattr_ne; [assumption|].
    intros Heq. apply (Hpre b); [now left|congruence].
Qed.




(** * Further properties *)

(** ** capture: the closing line and the external calls *)

Lemma capture_loop_final_rate
    (w : Workflow) (start : Q) (clock : nat -> Q) (key : string)
    (rest : list string) :
  is_capture_key w key = false ->
  forall pre tick shot pph,
    forallb (is_capture_key w) pre = true ->
    (forall i, (tick <= i < tick + length pre)%nat -> ~ (clock i == start)%Q) ->
    snd (capture_loop w start clock tick (pre ++ key :: rest) shot pph) =
      Returned ((shot + length pre * length (devices w))%nat,
                match pre with
                | [] => pph
                | _ :: _ =>
                    (3600 / (clock (tick + length pre - 1)%nat - start) *
                     Q_of_nat (shot + length pre * length (devices w)))%Q
                end,
                (tick + length pre)%nat).
Proof.
  intros Hkey. induction pre as [|k pre IH]; intros tick shot pph Hall Hclock.
  - simpl. rewrite Hkey. simpl. now rewrite !Nat.add_0_r.
  - simpl in Hall. apply andb_true_iff in Hall as [Hk Hall].
    cbn [app capture_loop]. rewrite Hk. cbn [negb].
    rewrite rate_nonzero_elapsed by (apply Hclock; simpl; lia).
    specialize (IH (S tick) (shot + length (devices w))%nat
                  (3600 / (clock tick - start) *
                   Q_of_nat (shot + length (devices w)))%Q Hall).
    destruct (capture_loop w start clock (S tick) (pre ++ key :: rest) _ _)
      as [tr out].
    cbn [snd] in *. rewrite IH by (intros i Hi; apply Hclock; simpl; lia).
    cbn [length].
    replace (shot + length (devices w) + length pre * length (devices w))%nat
      with (shot + S (length pre) * length (devices w))%nat by lia.
    replace (S tick + length pre)%nat with (tick + S (length pre))%nat by lia.
    destruct pre as [|k' pre'].
    + cbn [length].
      replace (tick + 1 - 1)%nat with tick by lia.
      replace (shot + 1 * length (devices w))%nat
        with (shot + length (devices w))%nat by lia.
      reflexivity.
    + replace (S tick + length (k' :: pre') - 1)%nat
        with (tick + S (length (k' :: pre')) - 1)%nat by lia.
      reflexivity.
Qed.

(** X1: After [n] captures and a key that is not a capture key, the closing
    line reports [n] times the number of devices as the page count, the
    time of the last clock reading in minutes, and as average speed the
    rate worked out at the last capture (0 when there was none): the rate
    is not recomputed for the closing line. *)
Theorem capture_closing_line
    (w : Workflow) (clock : nat -> Q) (pre : list string) (key : string)
    (rest : list string) :
  length (devices w) = 2%nat ->
  all_configured w = true ->
  Forall (fun k => In (lower k) (capture_keys w)) pre ->
  ~ In (lower key) (capture_keys w) ->
  (forall i, (1 <= i <= length pre)%nat -> ~ (clock i == clock 0%nat)%Q) ->
  exists body,
    capture w (pre ++ key :: rest) clock =
      (body ++
         [FinishCapture;
          Summary (length pre * 2)
                  ((clock (S (length pre)) - clock 0%nat) / 60)%Q
                  (final_rate clock 2 (length pre))],
       Returned tt) /\
    calls is_capture body = length pre.
Proof.
  intros Hn Hc Hpre Hkey Hclock.
  assert (Hk : is_capture_key w key = false).
  { destruct (is_capture_key w key) eqn:E; [|reflexivity].
    now apply is_capture_key_In in E. }
  assert (Hall : forallb (is_capture_key w) pre = true).
  { apply forallb_forall. intros k Hin. apply is_capture_key_In.
    rewrite List.Forall_forall in Hpre. now apply Hpre. }
  assert (Hclock' : forall i, (1 <= i < 1 + length pre)%nat ->
                              ~ (clock i == clock 0%nat)%Q).
  { intros i Hi. apply Hclock. lia. }
  destruct (capture_loop_until_other_key w (clock 0%nat) clock key rest Hk
              pre 1%nat 0%nat 0%Q Hall Hclock')
    as (tr & pph & Hrun & Hcap & _ & _).
  pose proof (capture_loop_final_rate w (clock 0%nat) clock key rest Hk
                pre 1%nat 0%nat 0%Q Hall Hclock') as Hfinal.
  rewrite Hrun in Hfinal. cbn [snd] in Hfinal.
  assert (Hrate : pph = final_rate clock 2 (length pre)).
  { injection Hfinal as ->. rewrite Hn. unfold final_rate.
    destruct pre as [|k pre']; [reflexivity|].
    rewrite Nat.sub_0_r. reflexivity. }
  unfold capture. unfold all_configured in Hc.
  rewrite existsb_negb_forallb, Hn, Hc. cbn [Nat.eqb negb].
  rewrite Hrun, Hn, Hrate. cbn [Nat.add].
  eexists. split.
  - reflexivity.
  - change (calls is_capture
              ([Print ("Found " +:+ str_of_nat 2 +:+ " devices!");
                Print "Setting up devices for capturing."; PrepareCapture;
                Print "Press 'b' to capture."] ++ tr) = length pre).
    rewrite calls_app. exact Hcap.
Qed.

Lemma capture_closing_line_witness :
  let w := mkWorkflow [mkDevice (PStr "left"); mkDevice (PStr "right")]
                      ["b"] in
  let clock := fun n => Q_of_nat (100 + 5 * n) in
  exists body,
    capture w (["b"; "B"] ++ "q" :: []) clock =
      (body ++
         [FinishCapture;
          Summary 4 ((clock 3%nat - clock 0%nat) / 60)%Q
                  (3600 / (clock 2%nat - clock 0%nat) * Q_of_nat 4)%Q],
       Returned tt) /\
    calls is_capture body = 2%nat.
Proof.
  intros w clock.
  apply (capture_closing_line w clock ["b"; "B"] "q" []).
  - reflexivity.
  - reflexivity.
  - repeat (apply List.Forall_cons; [simpl; auto|]). apply List.Forall_nil.
  - simpl. intros [H|[]]; discriminate H.
  - intros i Hi. unfold clock, Q_of_nat, Qeq. simpl. lia.
Defined.

Lemma capture_loop_never_prepares
    (w : Workflow) (start : Q) (clock : nat -> Q) (keys : list string) :
  forall tick shot pph,
    calls is_prepare (fst (capture_loop w start clock tick keys shot pph)) = 0%nat.
Proof.
  induction keys as [|k keys IH]; intros tick shot pph; simpl; [reflexivity|].
  destruct (is_capture_key w k); simpl; [|reflexivity].
  destruct (rate start (clock tick) (shot + length (devices w))); [|reflexivity].
  specialize (IH (S tick) (shot + length (devices w))%nat a).
  destruct (capture_loop _ _ _ _ _ _ _) as [tr out]. exact IH.
Qed.

(** X3: Whatever the keys and the clock, [prepare_capture] is called exactly
    once when there are two devices that all have an orientation, and is
    not called at all otherwise. *)
Theorem prepare_capture_called_iff_devices_ready
    (w : Workflow) (keys : list string) (clock : nat -> Q) :
  calls is_prepare (fst (capture w keys clock)) =
    if (length (devices w) =? 2)%nat && all_configured w then 1%nat else 0%nat.
Proof.
  unfold capture, all_configured. rewrite existsb_negb_forallb.
  destruct (length (devices w) =? 2)%nat; [|reflexivity].
  destruct (forallb _ (devices w)); [|reflexivity].
  cbn [negb andb].
  pose proof (capture_loop_never_prepares w (clock 0%nat) clock keys 1 0 0%Q)
    as Hloop.
  destruct (capture_loop _ _ _ _ _ _ _) as [tr out].
  cbn [fst] in Hloop.
  assert (Harmed : forall found,
            calls is_prepare
              ([Print found; Print "Setting up devices for capturing.";
                PrepareCapture; Print "Press 'b' to capture."] ++ tr) = 1%nat).
  { intros found. rewrite calls_app, Hloop. reflexivity. }
  destruct out as [[[shot pph] tick]|e|]; cbn [fst].
  - rewrite calls_app, Harmed. reflexivity.
  - apply Harmed.
  - apply Harmed.
Qed.

(** ** wizard *)

Lemma capture_events_are_no_calls (f : wizard_event -> bool) (tr : list event) :
  (forall e, f (FromCapture e) = false) ->
  existsb f (map FromCapture tr) = false.
Proof.
  intros Hf. induction tr as [|e tr IH]; [reflexivity|].
  simpl. now rewrite Hf, IH.
Qed.

(** X4: The wizard runs the capture handler first and to its end.
    [workflow.process()] is called exactly when capture returned, and
    [workflow.output()] exactly when capture returned and processing did
    not raise; a step that raises ends the wizard with that exception and
    nothing of an earlier step is undone or repeated. *)
Theorem wizard_runs_steps_in_order
    (w : Workflow) (keys : list string) (clock : nat -> Q)
    (process generate : result unit) :
  let c := capture w keys clock in
  let r := wizard w keys clock process generate in
  (exists rest,
      fst r = Banner capture_banner :: map FromCapture (fst c) ++ rest /\
      existsb from_capture rest = false) /\
  existsb is_process (fst r) =
    match snd c with Returned _ => true | _ => false end /\
  existsb is_output (fst r) =
    match snd c with Returned _ => is_ok process | _ => false end /\
  snd r =
    match snd c with
    | Returned _ =>
        match process with
        | Ok _ => outcome_of generate
        | Raise e => Raised e
        end
    | Raised e => Raised e
    | Blocked => Blocked
    end.
Proof.
  intros c r. subst c r. unfold wizard.
  destruct (capture w keys clock) as [tr out]. cbn [fst snd].
  pose proof (capture_events_are_no_calls is_process tr (fun _ => eq_refl))
    as Hp.
  pose proof (capture_events_are_no_calls is_output tr (fun _ => eq_refl))
    as Ho.
  destruct out as [[]|e|].
  - destruct process as [[]|e]; cbv [postprocess output outcome_of is_ok];
      cbn [fst snd app].
    + repeat split.
      * eexists. split; [rewrite <- app_assoc; reflexivity|reflexivity].
      * cbn [existsb is_process orb]. rewrite !existsb_app, Hp. reflexivity.
      * cbn [existsb is_output orb]. rewrite !existsb_app, Ho. reflexivity.
    + repeat split.
      * eexists. split; reflexivity.
      * cbn [existsb is_process orb]. rewrite !existsb_app, Hp. reflexivity.
      * cbn [existsb is_output orb]. rewrite !existsb_app, Ho. reflexivity.
  - repeat split; [exists []; now rewrite app_nil_r|exact Hp|exact Ho].
  - repeat split; [exists []; now rewrite app_nil_r|exact Hp|exact Ho].
Qed.

(** X5: A [DeviceException] from the capture check ends the wizard before
    anything is prepared, processed or generated. *)
Theorem wizard_stops_on_device_exception
    (w : Workflow) (keys : list string) (clock : nat -> Q)
    (process generate : result unit) :
  (length (devices w) =? 2)%nat && all_configured w = false ->
  exists msg tr,
    wizard w keys clock process generate =
      (Banner capture_banner :: map FromCapture tr,
       Raised (DeviceException msg)) /\
    calls is_prepare tr = 0%nat /\ calls is_capture tr = 0%nat.
Proof.
  intros Hready. unfold wizard, capture, all_configured in *.
  rewrite existsb_negb_forallb.
  destruct (length (devices w) =? 2)%nat; cbn [negb andb] in *.
  - rewrite Hready. cbn [negb]. eexists. eexists.
    split; [reflexivity|]. split; reflexivity.
  - eexists. exists []. split; [reflexivity|]. split; reflexivity.
Qed.

Lemma wizard_stops_on_device_exception_witness :
  exists msg tr,
    wizard (mkWorkflow [mkDevice (PStr "left")] ["b"]) ["b"; "q"] Q_of_nat
           (Ok tt) (Ok tt) =
      (Banner capture_banner :: map FromCapture tr,
       Raised (DeviceException msg)) /\
    calls is_prepare tr = 0%nat /\ calls is_capture tr = 0%nat.
Proof.
  apply (wizard_stops_on_device_exception
           (mkWorkflow [mkDevice (PStr "left")] ["b"]) ["b"; "q"] Q_of_nat).
  reflexivity.
Defined.

(** ** Flag synthesis: what the loops keep *)

Lemma has_flag_In (f : string) (p : ArgumentParser) :
  has_flag f p = true <-> In f (registered_flags p).
Proof.
  unfold has_flag. rewrite existsb_exists. split.
  - intros (x & Hin & Heq). apply String.eqb_eq in Heq. now subst.
  - intros Hin. exists f. split; [assumption|apply String.eqb_refl].
Qed.

Lemma extends_refl (p : ArgumentParser) : extends p p.
Proof. exists []. now rewrite app_nil_r. Qed.

Lemma extends_trans (p q r : ArgumentParser) :
  extends p q -> extends q r -> extends p r.
Proof.
  intros (a & Ha & Hd) (b & Hb & Hd'). exists (a ++ b).
  rewrite Hb, Ha, app_assoc. split; [reflexivity|congruence].
Qed.

Lemma has_flag_extends (f : string) (p p' : ArgumentParser) :
  extends p p' -> has_flag f p = true -> has_flag f p' = true.
Proof.
  intros (added & Ha & _). rewrite !has_flag_In. unfold registered_flags.
  rewrite Ha, map_app, concat_app. intros H. apply in_or_app. now left.
Qed.

Lemma option_flag_dest (extname key : string) (opt : PluginOption)
    (flag : string) (kw : Kwargs) :
  option_flag extname key opt = Ok (flag, kw) ->
  kw_dest kw = extname +:+ "." +:+ key /\
  (flag = "--" +:+ key \/ flag = "--no-" +:+ key).
Proof.
  unfold option_flag.
  destruct (if negb (selectable opt) then Ok (value opt)
            else py_getitem0 (value opt)) as [default|e];
    cbn [bind]; [|discriminate].
  destruct (value opt) as [|[]| | | |items|tyname];
    try (intros [= <- <-]; split; [reflexivity|auto]).
  all: destruct (selectable opt); try discriminate.
  all: destruct (py_getitem0 _) as [first|e1]; cbn [bind]; try discriminate.
  all: destruct (py_join _ _) as [joined|e2]; cbn [bind]; try discriminate.
  all: intros [= <- <-]; split; [reflexivity|auto].
Qed.

(** The three ways a single option can go. *)
Lemma add_option_cases (extname key : string) (opt : PluginOption)
    (p : ArgumentParser) :
  match flag_of extname key opt with
  | None => is_ok (_add_argument_from_option extname key opt p) = false
  | Some flag =>
      if has_flag flag p then
        _add_argument_from_option extname key opt p =
          Raise (ArgumentError flag)
      else
        exists a,
          _add_argument_from_option extname key opt p =
            Ok {| actions := actions p ++ [a]; p_defaults := p_defaults p |} /\
          option_strings a = [flag] /\
          a_dest a = extname +:+ "." +:+ key
  end.
Proof.
  unfold flag_of, _add_argument_from_option.
  destruct (option_flag extname key opt) as [[flag kw]|e] eqn:Hflag;
    cbn [bind]; [|reflexivity].
  destruct (has_flag flag p) eqn:Htaken.
  - now apply add_argument_taken.
  - rewrite (add_argument_fresh _ _ _ Htaken).
    eexists. split; [reflexivity|]. split; [reflexivity|].
    apply (option_flag_dest _ _ _ _ _ Hflag).
Qed.

Lemma add_option_extends (extname key : string) (opt : PluginOption)
    (p p' : ArgumentParser) :
  _add_argument_from_option extname key opt p = Ok p' ->
  exists a flag,
    actions p' = actions p ++ [a] /\ p_defaults p' = p_defaults p /\
    flag_of extname key opt = Some flag /\ has_flag flag p = false /\
    option_strings a = [flag] /\ a_dest a = extname +:+ "." +:+ key.
Proof.
  intros Hadd. pose proof (add_option_cases extname key opt p) as Hc.
  destruct (flag_of extname key opt) as [flag|].
  - destruct (has_flag flag p) eqn:Htaken.
    + rewrite Hc in Hadd. discriminate.
    + destruct Hc as (a & Hrun & Hs & Hd). rewrite Hrun in Hadd.
      injection Hadd as <-. exists a, flag. now repeat split.
  - rewrite Hadd in Hc. discriminate.
Qed.

(** An action added for an option of [items] under the owner [extname]. *)
Lemma plugin_loop_grows (extname : string)
    (items : list (string * PluginOption)) :
  forall p, exists added,
    actions (plugin_loop extname items p) = actions p ++ added /\
    p_defaults (plugin_loop extname items p) = p_defaults p /\
    Forall (fun a => exists key opt flag,
                In (key, opt) items /\
                flag_of extname key opt = Some flag /\
                option_strings a = [flag] /\
                a_dest a = extname +:+ "." +:+ key) added.
Proof.
  induction items as [|[key opt] items IH]; intros p.
  - exists []. rewrite app_nil_r. repeat split. constructor.
  - cbn [plugin_loop].
    destruct (_add_argument_from_option extname key opt p) as [p'|e] eqn:Hadd.
    + destruct (add_option_extends _ _ _ _ _ Hadd)
        as (a & flag & Ha & Hd & Hf & _ & Hs & Hdest).
      destruct (IH p') as (added & Hacts & Hdefs & Hall).
      exists (a :: added). rewrite Hacts, Ha, <- app_assoc.
      split; [reflexivity|]. split; [congruence|].
      constructor.
      * exists key, opt, flag. repeat split; auto. now left.
      * eapply List.Forall_impl; [|exact Hall].
        intros b (k & o & f & Hin & H). exists k, o, f. split; [now right|exact H].
    + destruct (IH p) as (added & Hacts & Hdefs & Hall).
      exists added. split; [assumption|]. split; [assumption|].
      eapply List.Forall_impl; [|exact Hall].
      intros b (k & o & f & Hin & H). exists k, o, f. split; [now right|exact H].
Qed.

Lemma device_loop_grows (items : list (string * PluginOption)) :
  forall p, exists added,
    actions (device_loop items p) = actions p ++ added /\
    p_defaults (device_loop items p) = p_defaults p /\
    Forall (fun a => exists key opt flag,
                In (key, opt) items /\
                flag_of "device" key opt = Some flag /\
                option_strings a = [flag] /\
                a_dest a = "device" +:+ "." +:+ key) added.
Proof.
  induction items as [|[key opt] items IH]; intros p.
  - exists []. rewrite app_nil_r. repeat split. constructor.
  - cbn [device_loop].
    destruct (_add_argument_from_option "device" key opt p) as [p'|e] eqn:Hadd.
    + destruct (add_option_extends _ _ _ _ _ Hadd)
        as (a & flag & Ha & Hd & Hf & _ & Hs & Hdest).
      destruct (IH p') as (added & Hacts & Hdefs & Hall).
      exists (a :: added). rewrite Hacts, Ha, <- app_assoc.
      split; [reflexivity|]. split; [congruence|].
      constructor.
      * exists key, opt, flag. repeat split; auto. now left.
      * eapply List.Forall_impl; [|exact Hall].
        intros b (k & o & f & Hin & H). exists k, o, f. split; [now right|exact H].
    + exists []. rewrite app_nil_r. repeat split. constructor.
Qed.

Lemma plugin_loop_extends (extname : string)
    (items : list (string * PluginOption)) (p : ArgumentParser) :
  extends p (plugin_loop extname items p).
Proof.
  destruct (plugin_loop_grows extname items p) as (added & Ha & Hd & _).
  now exists added.
Qed.

Lemma add_plugin_arguments_grows (extensions : list Extension) :
  forall p, exists added,
    actions (_add_plugin_arguments extensions p) = actions p ++ added /\
    p_defaults (_add_plugin_arguments extensions p) = p_defaults p /\
    Forall (fun a => exists ext items key opt flag,
                In ext extensions /\ ext_template ext = Some items /\
                In (key, opt) items /\
                flag_of (ext_name ext) key opt = Some flag /\
                option_strings a = [flag] /\
                a_dest a = ext_name ext +:+ "." +:+ key) added.
Proof.
  induction extensions as [|ext rest IH]; intros p.
  - exists []. rewrite app_nil_r. repeat split. constructor.
  - assert (Hskip : (exists added,
               actions (_add_plugin_arguments rest p) = actions p ++ added /\
               p_defaults (_add_plugin_arguments rest p) = p_defaults p /\
               Forall (fun a => exists ext0 items key opt flag,
                  In ext0 (ext :: rest) /\ ext_template ext0 = Some items /\
                  In (key, opt) items /\
                  flag_of (ext_name ext0) key opt = Some flag /\
                  option_strings a = [flag] /\
                  a_dest a = ext_name ext0 +:+ "." +:+ key) added)).
    { destruct (IH p) as (added & Ha & Hd & Hall). exists added.
      split; [assumption|]. split; [assumption|].
      eapply List.Forall_impl; [|exact Hall].
      intros a (e & its & k & o & f & Hin & H).
      exists e, its, k, o, f. split; [now right|exact H]. }
    cbn [_add_plugin_arguments].
    destruct (ext_template ext) as [[|item items]|] eqn:Htmpl;
      [exact Hskip| |exact Hskip].
    destruct (plugin_loop_grows (ext_name ext) (item :: items) p)
      as (added1 & Ha1 & Hd1 & Hall1).
    destruct (IH (plugin_loop (ext_name ext) (item :: items) p))
      as (added2 & Ha2 & Hd2 & Hall2).
    exists (added1 ++ added2). rewrite Ha2, Ha1, <- app_assoc.
    split; [reflexivity|]. split; [congruence|].
    apply List.Forall_app. split.
    + eapply List.Forall_impl; [|exact Hall1].
      intros a (k & o & f & Hin & H).
      exists ext, (item :: items), k, o, f.
      split; [now left|]. split; [assumption|]. split; [assumption|exact H].
    + eapply List.Forall_impl; [|exact Hall2].
      intros a (e & its & k & o & f & Hin & H).
      exists e, its, k, o, f. split; [now right|exact H].
Qed.

(** X6: Flag synthesis only appends.  [_add_plugin_arguments] and
    [_add_device_arguments] keep every action and parser default that was
    there, in place; each action they add belongs to one option of a
    template they were given, carries that option's single flag and has
    the destination [owner.key]. *)
Theorem flag_synthesis_only_appends
    (extensions : list Extension) (tmpl : template) (p : ArgumentParser) :
  (exists added,
      actions (_add_plugin_arguments extensions p) = actions p ++ added /\
      p_defaults (_add_plugin_arguments extensions p) = p_defaults p /\
      Forall (fun a => exists ext items key opt flag,
                  In ext extensions /\ ext_template ext = Some items /\
                  In (key, opt) items /\
                  flag_of (ext_name ext) key opt = Some flag /\
                  option_strings a = [flag] /\
                  a_dest a = ext_name ext +:+ "." +:+ key) added) /\
  (exists added,
      actions (_add_device_arguments tmpl p) = actions p ++ added /\
      p_defaults (_add_device_arguments tmpl p) = p_defaults p /\
      Forall (fun a => exists items key opt flag,
                  tmpl = Some items /\ In (key, opt) items /\
                  flag_of "device" key opt = Some flag /\
                  option_strings a = [flag] /\
                  a_dest a = "device" +:+ "." +:+ key) added).
Proof.
  split; [apply add_plugin_arguments_grows|].
  unfold _add_device_arguments.
  destruct tmpl as [[|item items]|].
  - exists []. rewrite app_nil_r. repeat split. constructor.
  - destruct (device_loop_grows (item :: items) p) as (added & Ha & Hd & Hall).
    exists added. split; [assumption|]. split; [assumption|].
    eapply List.Forall_impl; [|exact Hall].
    intros a (k & o & f & H). exists (item :: items), k, o, f. now split.
  - exists []. rewrite app_nil_r. repeat split. constructor.
Qed.

Lemma add_plugin_arguments_extends (extensions : list Extension)
    (p : ArgumentParser) :
  extends p (_add_plugin_arguments extensions p).
Proof.
  destruct (add_plugin_arguments_grows extensions p) as (added & Ha & Hd & _).
  now exists added.
Qed.

Lemma add_device_arguments_extends (tmpl : template) (p : ArgumentParser) :
  extends p (_add_device_arguments tmpl p).
Proof.
  unfold _add_device_arguments.
  destruct tmpl as [[|item items]|]; try apply extends_refl.
  destruct (device_loop_grows (item :: items) p) as (added & Ha & Hd & _).
  now exists added.
Qed.

(** *** Option strings stay distinct *)

Lemma add_option_NoDup (extname key : string) (opt : PluginOption)
    (p p' : ArgumentParser) :
  _add_argument_from_option extname key opt p = Ok p' ->
  NoDup (registered_flags p) -> NoDup (registered_flags p').
Proof.
  intros Hadd Hnd.
  destruct (add_option_extends _ _ _ _ _ Hadd)
    as (a & flag & Ha & _ & _ & Hfresh & Hs & _).
  unfold registered_flags. rewrite Ha, map_app, concat_app. cbn [map concat].
  rewrite Hs, app_nil_r. apply NoDup_app. split; [exact Hnd|]. split.
  - intros x Hx Hin. apply list_elem_of_In in Hx, Hin.
    destruct Hin as [<-|[]].
    apply has_flag_In in Hx. congruence.
  - apply NoDup_singleton.
Qed.

Lemma plugin_loop_NoDup (extname : string)
    (items : list (string * PluginOption)) :
  forall p, NoDup (registered_flags p) ->
            NoDup (registered_flags (plugin_loop extname items p)).
Proof.
  induction items as [|[key opt] items IH]; intros p Hnd; [exact Hnd|].
  cbn [plugin_loop].
  destruct (_add_argument_from_option extname key opt p) as [p'|e] eqn:Hadd.
  - apply IH. now apply (add_option_NoDup _ _ _ _ _ Hadd).
  - now apply IH.
Qed.

Lemma device_loop_NoDup (items : list (string * PluginOption)) :
  forall p, NoDup (registered_flags p) ->
            NoDup (registered_flags (device_loop items p)).
Proof.
  induction items as [|[key opt] items IH]; intros p Hnd; [exact Hnd|].
  cbn [device_loop].
  destruct (_add_argument_from_option "device" key opt p) as [p'|e] eqn:Hadd.
  - apply IH. now apply (add_option_NoDup _ _ _ _ _ Hadd).
  - exact Hnd.
Qed.

Lemma add_plugin_arguments_NoDup (extensions : list Extension) :
  forall p, NoDup (registered_flags p) ->
            NoDup (registered_flags (_add_plugin_arguments extensions p)).
Proof.
  induction extensions as [|ext rest IH]; intros p Hnd; [exact Hnd|].
  cbn [_add_plugin_arguments].
  destruct (ext_template ext) as [[|item items]|]; try now apply IH.
  apply IH. now apply plugin_loop_NoDup.
Qed.

Lemma add_device_arguments_NoDup (tmpl : template) (p : ArgumentParser) :
  NoDup (registered_flags p) ->
  NoDup (registered_flags (_add_device_arguments tmpl p)).
Proof.
  intros Hnd. unfold _add_device_arguments.
  destruct tmpl as [[|item items]|]; try exact Hnd.
  now apply device_loop_NoDup.
Qed.

(** X7: No option string is ever registered twice on a parser: the synthesis
    loops keep the option strings pairwise distinct, whatever the
    templates contain. *)
Theorem flag_synthesis_keeps_flags_distinct
    (extensions : list Extension) (tmpl : template) (p : ArgumentParser) :
  NoDup (registered_flags p) ->
  NoDup (registered_flags (_add_plugin_arguments extensions p)) /\
  NoDup (registered_flags (_add_device_arguments tmpl p)).
Proof.
  intros Hnd. split.
  - now apply add_plugin_arguments_NoDup.
  - now apply add_device_arguments_NoDup.
Qed.

Lemma flag_synthesis_keeps_flags_distinct_witness :
  let rotate := mkOption (PBool true) "Rotate" false in
  let clash := mkOption (PStr "x") "Clashes with the first" false in
  let exts := [mkExtension "autorotate" (Some [("rotate", rotate)]);
               mkExtension "other" (Some [("no-rotate", clash)])] in
  NoDup (registered_flags (_add_plugin_arguments exts new_parser)) /\
  NoDup (registered_flags
           (_add_device_arguments (Some [("no-rotate", clash)]) new_parser)).
Proof.
  intros rotate clash exts.
  apply (flag_synthesis_keeps_flags_distinct exts _ new_parser).
  repeat (apply NoDup_cons; split;
          [rewrite list_elem_of_In; simpl; intuition discriminate|]).
  apply NoDup_nil. exact I.
Defined.

(** *** Registering a template again changes nothing *)

Lemma settled_extends (extname : string)
    (items : list (string * PluginOption)) (p q : ArgumentParser) :
  settled extname items p -> extends p q -> settled extname items q.
Proof.
  intros Hs Hext key opt Hin. specialize (Hs key opt Hin).
  destruct (flag_of extname key opt); [|exact I].
  now apply (has_flag_extends _ p q).
Qed.

Lemma plugin_loop_settles (extname : string)
    (items : list (string * PluginOption)) :
  forall p, settled extname items (plugin_loop extname items p).
Proof.
  induction items as [|[key opt] items IH]; intros p k o Hin; [destruct Hin|].
  cbn [plugin_loop].
  pose proof (add_option_cases extname key opt p) as Hc.
  destruct Hin as [[= <- <-]|Hin].
  - destruct (flag_of extname key opt) as [flag|]; [|exact I].
    destruct (has_flag flag p) eqn:Htaken.
    + rewrite Hc. apply (has_flag_extends _ p); [|assumption].
      apply plugin_loop_extends.
    + destruct Hc as (a & Hrun & Hs & _). rewrite Hrun.
      eapply has_flag_extends; [apply plugin_loop_extends|].
      apply has_flag_In. unfold registered_flags. cbn [actions].
      rewrite map_app, concat_app. apply in_or_app. right.
      cbn [map concat]. rewrite Hs. now left.
  - destruct (_add_argument_from_option extname key opt p);
      now apply (IH _ k o).
Qed.

Lemma settled_plugin_loop (extname : string)
    (items : list (string * PluginOption)) (q : ArgumentParser) :
  settled extname items q -> plugin_loop extname items q = q.
Proof.
  induction items as [|[key opt] items IH]; intros Hs; [reflexivity|].
  cbn [plugin_loop].
  pose proof (add_option_cases extname key opt q) as Hc.
  pose proof (Hs key opt (or_introl eq_refl)) as Hfirst.
  assert (Hrest : settled extname items q).
  { intros k o Hin. apply Hs. now right. }
  destruct (flag_of extname key opt) as [flag|].
  - rewrite Hfirst in Hc. rewrite Hc. now apply IH.
  - destruct (_add_argument_from_option extname key opt q);
      [discriminate|now apply IH].
Qed.

Lemma add_plugin_arguments_settles (extensions : list Extension) :
  forall p ext items,
    In ext extensions -> ext_template ext = Some items ->
    settled (ext_name ext) items (_add_plugin_arguments extensions p).
Proof.
  induction extensions as [|e rest IH]; intros p ext items Hin Htmpl;
    [destruct Hin|].
  cbn [_add_plugin_arguments].
  destruct Hin as [<-|Hin].
  - rewrite Htmpl. destruct items as [|item items'].
    + intros k o [].
    + eapply settled_extends; [apply plugin_loop_settles|].
      apply add_plugin_arguments_extends.
  - destruct (ext_template e) as [[|item its]|]; now apply IH.
Qed.

Lemma settled_add_plugin_arguments (extensions : list Extension)
    (q : ArgumentParser) :
  (forall ext items, In ext extensions -> ext_template ext = Some items ->
                     settled (ext_name ext) items q) ->
  _add_plugin_arguments extensions q = q.
Proof.
  induction extensions as [|e rest IH]; intros Hs; [reflexivity|].
  cbn [_add_plugin_arguments].
  assert (Hrest : _add_plugin_arguments rest q = q).
  { apply IH. intros ext items Hin. apply Hs. now right. }
  destruct (ext_template e) as [[|item its]|] eqn:Htmpl; try exact Hrest.
  rewrite (settled_plugin_loop (ext_name e) (item :: its) q); [exact Hrest|].
  apply (Hs e); [now left|assumption].
Qed.

(** X8: Once the options of some extensions have been offered to a parser,
    offering them again, at once or after further arguments were added,
    changes nothing: every flag is either registered already, so that the
    conflict is swallowed, or fails as it did before.  This is what
    happens on the wizard parser to an extension that is relevant to
    several of the hook groups. *)
Theorem plugin_arguments_registered_once
    (extensions : list Extension) (p q : ArgumentParser) :
  extends (_add_plugin_arguments extensions p) q ->
  _add_plugin_arguments extensions q = q.
Proof.
  intros Hext. apply settled_add_plugin_arguments.
  intros ext items Hin Htmpl.
  eapply settled_extends; [|exact Hext].
  now apply add_plugin_arguments_settles.
Qed.

Lemma plugin_arguments_registered_once_witness :
  let exts := [mkExtension "autorotate"
                 (Some [("rotate", mkOption (PBool true) "Rotate" false);
                        ("angle", mkOption (PInt 90) "Angle" false);
                        ("broken", mkOption PNone "No type" false)])] in
  let q := _add_plugin_arguments
             [mkExtension "scantailor"
                (Some [("dpi", mkOption (PInt 300) "Resolution" false)])]
             (_add_plugin_arguments exts new_parser) in
  _add_plugin_arguments exts q = q.
Proof.
  intros exts q.
  apply (plugin_arguments_registered_once exts new_parser q).
  apply add_plugin_arguments_extends.
Defined.

(** ** Flag synthesis: options that yield no flag *)

Lemma str_items_ok (l : list pyval) :
  forall i, is_ok (str_items i l) = forallb is_text l.
Proof.
  induction l as [|x l IH]; intros i; [reflexivity|].
  destruct x; try reflexivity.
  cbn [str_items forallb is_text andb]. rewrite <- (IH (S i)).
  now destruct (str_items (S i) l).
Qed.

(** X9: A selectable option gets a flag exactly when its choices are a
    non-empty sequence of strings: an empty sequence fails on
    [option.value[0]] and a choice that is not a string fails when the
    metavar is joined, so that, for instance, integer choices never reach
    the command line. *)
Theorem selectable_flag_needs_string_choices
    (extname key : string) (opt : PluginOption) (cs : list pyval) :
  selectable opt = true ->
  value opt = PSeq cs ->
  flag_of extname key opt =
    if match cs with [] => false | _ :: _ => true end && forallb is_text cs
    then Some ("--" +:+ key) else None.
Proof.
  intros Hsel Hval. unfold flag_of, option_flag.
  rewrite Hsel, Hval. cbn [negb].
  destruct cs as [|c cs]; [reflexivity|].
  cbn [py_getitem0 bind py_join andb].
  rewrite <- (str_items_ok (c :: cs) 0).
  now destruct (str_items 0 (c :: cs)).
Qed.

Lemma selectable_flag_needs_string_choices_witness :
  flag_of "device" "zoom" (mkOption (PSeq [PInt 1; PInt 2]) "Zoom" true) = None /\
  flag_of "device" "zoom" (mkOption (PSeq []) "Zoom" true) = None /\
  flag_of "device" "zoom" (mkOption (PSeq [PStr "1"; PStr "2"]) "Zoom" true) =
    Some "--zoom".
Proof.
  split; [|split].
  - apply (selectable_flag_needs_string_choices "device" "zoom"
             (mkOption (PSeq [PInt 1; PInt 2]) "Zoom" true)
             [PInt 1; PInt 2]); reflexivity.
  - apply (selectable_flag_needs_string_choices "device" "zoom"
             (mkOption (PSeq []) "Zoom" true) []); reflexivity.
  - apply (selectable_flag_needs_string_choices "device" "zoom"
             (mkOption (PSeq [PStr "1"; PStr "2"]) "Zoom" true)
             [PStr "1"; PStr "2"]); reflexivity.
Defined.

(** X10: An option that yields no flag, or whose flag is already taken on the
    parser it reaches, is not registered.  At that point the driver's loop
    gives up the rest of its template, while an extension's loop goes on
    with the next option. *)
Theorem option_without_free_flag_is_dropped
    (extname key : string) (opt : PluginOption)
    (post : list (string * PluginOption)) (p : ArgumentParser) :
  match flag_of extname key opt with
  | Some flag => has_flag flag p = true
  | None => True
  end ->
  is_ok (_add_argument_from_option extname key opt p) = false /\
  plugin_loop extname ((key, opt) :: post) p = plugin_loop extname post p /\
  (extname = "device" ->
   _add_device_arguments (Some ((key, opt) :: post)) p = p).
Proof.
  intros Hflag.
  pose proof (add_option_cases extname key opt p) as Hc.
  assert (Hfail : is_ok (_add_argument_from_option extname key opt p) = false).
  { destruct (flag_of extname key opt) as [flag|]; [|exact Hc].
    rewrite Hflag in Hc. now rewrite Hc. }
  split; [exact Hfail|]. split.
  - cbn [plugin_loop].
    now destruct (_add_argument_from_option extname key opt p).
  - intros ->. cbn [_add_device_arguments device_loop].
    now destruct (_add_argument_from_option "device" key opt p).
Qed.

Lemma option_without_free_flag_is_dropped_witness :
  let help := mkOption (PStr "manual") "Help text to show" false in
  let rest := [("orientation", mkOption (PStr "left") "Orientation" false)] in
  is_ok (_add_argument_from_option "device" "help" help new_parser) = false /\
  plugin_loop "device" (("help", help) :: rest) new_parser =
    plugin_loop "device" rest new_parser /\
  ("device" = "device" ->
   _add_device_arguments (Some (("help", help) :: rest)) new_parser =
     new_parser).
Proof.
  intros help rest.
  apply (option_without_free_flag_is_dropped "device" "help" help rest
           new_parser).
  reflexivity.
Defined.

(** ** Flags on the command line *)

Lemma option_flag_store (extname key : string) (opt : PluginOption)
    (flag : string) (kw : Kwargs) :
  option_flag extname key opt = Ok (flag, kw) ->
  (forall b, value opt <> PBool b) ->
  flag = "--" +:+ key /\ kw_action kw = None /\ kw_default kw = None.
Proof.
  unfold option_flag. intros Hflag Hnb.
  destruct (if negb (selectable opt) then Ok (value opt)
            else py_getitem0 (value opt)) as [default|e];
    cbn [bind] in Hflag; [|discriminate].
  destruct (value opt) as [|b| | | |items|tyname];
    try (injection Hflag as <- <-; now repeat split).
  - destruct (selectable opt); [|discriminate].
    destruct (py_getitem0 _); cbn [bind] in Hflag; [|discriminate].
    destruct (py_join _ _); cbn [bind] in Hflag; [|discriminate].
    injection Hflag as <- <-. now repeat split.
  - now destruct (Hnb b).
  - destruct (selectable opt); [|discriminate].
    destruct (py_getitem0 _); cbn [bind] in Hflag; [|discriminate].
    destruct (py_join _ _); cbn [bind] in Hflag; [|discriminate].
    injection Hflag as <- <-. now repeat split.
  - destruct (selectable opt); [|discriminate].
    destruct (py_getitem0 _); cbn [bind] in Hflag; [|discriminate].
    destruct (py_join _ _); cbn [bind] in Hflag; [|discriminate].
    injection Hflag as <- <-. now repeat split.
Qed.



Section UntouchedDestinations.

Variable py_int : string -> option Z.
Variable py_float : string -> option Q.

Lemma take_action_other (dest : string) (a : Action) (arg : option string)
    (ns ns' : namespace) :
  take_action py_int py_float a arg ns = Ok ns' ->
  (NoDup (map fst ns) -> NoDup (map fst ns')) /\
  (a_dest a <> dest -> assoc dest ns' = assoc dest ns).
Proof.
  unfold take_action, usage_error.
  destruct (a_kind a), arg as [s|]; try discriminate.
  - destruct (get_value py_int py_float a s) as [v|]; [|discriminate].
    cbn [bind]. destruct (check_value a v); [|discriminate].
    cbn [bind]. intros [= <-]. split; [apply setattr_NoDup|].
    intros Hne. apply assoc_setattr_ne. congruence.
  - intros [= <-]. split; [apply setattr_NoDup|].
    intros Hne. apply assoc_setattr_ne. congruence.
  - intros [= <-]. split; [apply setattr_NoDup|].
    intros Hne. apply assoc_setattr_ne. congruence.
Qed.

Lemma consume_untouched (dest : string) (p : ArgumentParser)
    (occs : list occurrence) :
  forall ns ns',
    consume py_int py_float p occs ns = Ok ns' ->
    (NoDup (map fst ns) -> NoDup (map fst ns')) /\
    (forallb (fun o => negb (touches dest p o)) occs = true ->
     assoc dest ns' = assoc dest ns).
Proof.
  induction occs as [|o occs IH]; intros ns ns' Hrun.
  - injection Hrun as <-. auto.
  - cbn [consume] in Hrun. unfold touches. cbn [forallb].
    destruct (find_action (occ_flag o) p) as [a|]; [|discriminate].
    destruct (take_action py_int py_float a (occ_arg o) ns) as [ns1|]
      eqn:Hact; [|discriminate].
    cbn [bind] in Hrun.
    destruct (take_action_other dest a _ ns ns1 Hact) as (Hnd1 & Hsame1).
    destruct (IH ns1 ns' Hrun) as (Hnd2 & Hsame2).
    split; [auto|].
    intros Hall. apply andb_true_iff in Hall as [Ha Hall].
    rewrite (Hsame2 Hall). apply Hsame1.
    destruct (String.eqb_spec (a_dest a) dest); [discriminate|assumption].
Qed.

(** What a parse leaves under the destination of an action whose flags
    were not given: the action's default. *)
Lemma parse_leaves_default (p : ArgumentParser) (a : Action) (d : pyval)
    (pre post : list Action) (occs : list occurrence) (ns0 ns : namespace) :
  actions p = pre ++ a :: post ->
  (forall b, In b pre -> a_dest b <> a_dest a) ->
  a_default a = Some d ->
  NoDup (map fst ns0) ->
  hasattr (a_dest a) ns0 = false ->
  forallb (fun o => negb (touches (a_dest a) p o)) occs = true ->
  parse_known_args py_int py_float p occs ns0 = Ok ns ->
  assoc (a_dest a) ns = Some d /\ NoDup (map fst ns).
Proof.
  intros Hacts Hpre Hdef Hnd Hfree Hocc Hparse.
  unfold parse_known_args in Hparse.
  destruct (consume_untouched (a_dest a) p occs _ ns Hparse) as (Hnd' & Hsame).
  split.
  - rewrite (Hsame Hocc). apply add_parser_defaults_keeps.
    rewrite Hacts. now apply add_action_defaults_first.
  - apply Hnd'. now apply add_parser_defaults_NoDup, add_action_defaults_NoDup.
Qed.

End UntouchedDestinations.

Lemma merge_args_keeps_none (args : namespace) (config : ConfigNamespace)
    (k : string) :
  NoDup (map fst args) ->
  well_formed_keys args ->
  In (k, PNone) args ->
  exists config',
    merge_args args config = Ok config' /\
    config' !! split "." k = config !! split "." k.
Proof.
  intros Hnd Hwf Hin.
  destruct (merge_args_frame args Hwf config) as (config' & Hrun & Hframe).
  exists config'. split; [assumption|]. apply Hframe.
  intros k' v' Hin' Hv' _ Heq. apply split_inj in Heq. subst k'.
  now rewrite (NoDup_fst_functional args k v' PNone Hnd Hin' Hin) in Hv'.
Qed.

Lemma plain_option_action (extname key : string) (opt : PluginOption)
    (p0 p1 : ArgumentParser) :
  (forall b, value opt <> PBool b) ->
  assoc (extname +:+ "." +:+ key) (p_defaults p0) = None ->
  _add_argument_from_option extname key opt p0 = Ok p1 ->
  exists a : Action,
    actions p1 = actions p0 ++ [a] /\
    a_dest a = extname +:+ "." +:+ key /\
    a_default a = Some PNone /\
    a_kind a = Store.
Proof.
  intros Hnb Hdef Hadd. unfold _add_argument_from_option in Hadd.
  destruct (option_flag extname key opt) as [[flag kw]|e] eqn:Hflag;
    cbn [bind] in Hadd; [|discriminate].
  destruct (option_flag_store _ _ _ _ _ Hflag Hnb) as (_ & Hact & Hkd).
  destruct (option_flag_dest _ _ _ _ _ Hflag) as (Hdest & _).
  apply add_argument_appends in Hadd.
  eexists. split; [exact Hadd|].
  unfold make_action. cbn [a_dest a_default a_kind].
  rewrite Hact, Hkd, Hdest, Hdef. now repeat split.
Qed.

(** X12: A text, integer, float or selectable option whose flag is not given
    leaves [None] under its destination, so the merge does not touch
    [config[extname][key]]: what the configuration or a persisted file
    holds there survives the run. *)
Theorem absent_flag_keeps_config
    (py_int : string -> option Z) (py_float : string -> option Q)
    (extname key : string) (opt : PluginOption)
    (p0 p1 : ArgumentParser) (more : list Action)
    (occs : list occurrence) (ns0 ns : namespace)
    (config : ConfigNamespace) :
  (forall b, value opt <> PBool b) ->
  count_char "." extname = 0%nat ->
  count_char "." key = 0%nat ->
  assoc (extname +:+ "." +:+ key) (p_defaults p0) = None ->
  (forall b, In b (actions p0) -> a_dest b <> extname +:+ "." +:+ key) ->
  _add_argument_from_option extname key opt p0 = Ok p1 ->
  NoDup (map fst ns0) ->
  hasattr (extname +:+ "." +:+ key) ns0 = false ->
  let p := {| actions := actions p1 ++ more; p_defaults := p_defaults p1 |} in
  forallb (fun o => negb (touches (extname +:+ "." +:+ key) p o)) occs = true ->
  parse_known_args py_int py_float p occs ns0 = Ok ns ->
  well_formed_keys ns ->
  exists config' : ConfigNamespace,
    assoc (extname +:+ "." +:+ key) ns = Some PNone /\
    merge_args ns config = Ok config' /\
    config' !! [extname; key] = config !! [extname; key].
Proof.
  intros Hnb Hext Hkey Hdef Hpre Hadd Hnd Hfree p Hocc Hparse Hwf.
  destruct (plain_option_action extname key opt p0 p1 Hnb Hdef Hadd)
    as (a & Hacts & Hdest & Hdefault & _).
  assert (Hp : actions p = actions p0 ++ a :: more).
  { subst p. cbn [actions]. rewrite Hacts, <- app_assoc. reflexivity. }
  rewrite <- Hdest in Hpre, Hfree, Hocc.
  destruct (parse_leaves_default py_int py_float p a PNone (actions p0) more
              occs ns0 ns Hp Hpre Hdefault Hnd Hfree Hocc Hparse)
    as (Hval & Hnodup).
  rewrite Hdest in Hval.
  destruct (merge_args_keeps_none ns config (extname +:+ "." +:+ key)
              Hnodup Hwf (assoc_In _ _ _ Hval)) as (config' & Hrun & Hsame).
  exists config'. split; [assumption|]. split; [assumption|].
  now rewrite (split_dotted extname key Hext Hkey) in Hsame.
Qed.

Lemma absent_flag_keeps_config_witness :
  let py_int := fun _ : string => @None Z in
  let py_float := fun _ : string => @None Q in
  let opt := mkOption (PSeq [PStr "left"; PStr "right"]) "Orientation" true in
  let ns0 := [("verbose", PBool false); ("path", PStr "book")] in
  let file : ConfigNamespace :=
    <[ ["device"; "orientation"] := PStr "right" ]> ∅ in
  exists p1 ns,
    _add_argument_from_option "device" "orientation" opt new_parser = Ok p1 /\
    parse_known_args py_int py_float
      {| actions := actions p1 ++ []; p_defaults := p_defaults p1 |}
      [] ns0 = Ok ns /\
    exists config' : ConfigNamespace,
      assoc "device.orientation" ns = Some PNone /\
      merge_args ns file = Ok config' /\
      config' !! ["device"; "orientation"] = Some (PStr "right").
Proof.
  intros py_int py_float opt ns0 file.
  let p1 := eval vm_compute in
              (match _add_argument_from_option "device" "orientation" opt
                       new_parser with
               | Ok q => q
               | Raise _ => new_parser
               end) in
  let ns := eval vm_compute in
              (match parse_known_args py_int py_float
                       {| actions := actions p1 ++ [];
                          p_defaults := p_defaults p1 |} [] ns0 with
               | Ok n => n
               | Raise _ => ns0
               end) in
  exists p1, ns; split; [reflexivity|]; split; [reflexivity|];
  destruct (absent_flag_keeps_config py_int py_float
              "device" "orientation" opt new_parser p1 [] [] ns0 ns file)
    as (config' & Hval & Hrun & Hsame).
  - intros b. discriminate.
  - reflexivity.
  - reflexivity.
  - reflexivity.
  - simpl. intros b [<-|[]]. discriminate.
  - reflexivity.
  - repeat (apply NoDup_cons; split;
            [rewrite list_elem_of_In; simpl; intuition discriminate|]).
    apply NoDup_nil. exact I.
  - reflexivity.
  - reflexivity.
  - reflexivity.
  - intros k x Hin _ _. simpl in Hin.
    repeat (destruct Hin as [[= <- <-]|Hin]; [simpl; lia|]). contradiction.
  - exists config'. split; [exact Hval|]. split; [exact Hrun|].
    rewrite Hsame. reflexivity.
Defined.

(** ** setup_parser *)

Lemma count_char_append (c : ascii) (a b : string) :
  count_char c (a +:+ b) = (count_char c a + count_char c b)%nat.
Proof.
  induction a as [|d a IH]; [reflexivity|].
  change (String d a +:+ b) with (String d (a +:+ b)).
  cbn [count_char]. rewrite IH. lia.
Qed.

Lemma qualified_dest_dotted (extname key : string) :
  (1 <= count_char "." (extname +:+ "." +:+ key))%nat.
Proof.
  rewrite !count_char_append. cbn [count_char Ascii.eqb Bool.eqb]. lia.
Qed.

Lemma plugin_arguments_synthesized (extensions : list Extension)
    (p : ArgumentParser) :
  exists added,
    actions (_add_plugin_arguments extensions p) = actions p ++ added /\
    p_defaults (_add_plugin_arguments extensions p) = p_defaults p /\
    Forall synthesized added.
Proof.
  destruct (add_plugin_arguments_grows extensions p) as (added & Ha & Hd & Hall).
  exists added. split; [assumption|]. split; [assumption|].
  eapply List.Forall_impl; [|exact Hall].
  intros a (e & its & k & o & f & _ & _ & _ & _ & Hs & Hdest).
  split; [rewrite Hdest; apply qualified_dest_dotted|now exists f].
Qed.

Lemma device_arguments_synthesized (tmpl : template) (p : ArgumentParser) :
  exists added,
    actions (_add_device_arguments tmpl p) = actions p ++ added /\
    p_defaults (_add_device_arguments tmpl p) = p_defaults p /\
    Forall synthesized added.
Proof.
  unfold _add_device_arguments.
  destruct tmpl as [[|item items]|];
    try (exists []; rewrite app_nil_r; repeat split; constructor).
  destruct (device_loop_grows (item :: items) p) as (added & Ha & Hd & Hall).
  exists added. split; [assumption|]. split; [assumption|].
  eapply List.Forall_impl; [|exact Hall].
  intros a (k & o & f & _ & _ & Hs & Hdest).
  split; [rewrite Hdest; apply qualified_dest_dotted|now exists f].
Qed.

Lemma add_argument_free (flags : list string) (kw : Kwargs)
    (p : ArgumentParser) :
  List.find (fun f => has_flag f p) flags = None ->
  add_argument flags kw p =
    Ok {| actions := actions p ++ [make_action flags kw p];
          p_defaults := p_defaults p |}.
Proof. intros H. unfold add_argument. now rewrite H. Qed.

Section SetupParserProperties.

Variable get_relevant_extensions : list string -> list Extension.
Variable driver_template : template.

Lemma add_capture_arguments_surface (name : string) :
  exists p added,
    add_capture_arguments get_relevant_extensions driver_template
      (set_defaults "subcommand" (PStr name) new_parser) = Ok p /\
    actions p =
      help_action ::
      make_action ["--no-parallel-capture"] parallel_capture_kwargs new_parser ::
      added /\
    p_defaults p = [("subcommand", PStr name)] /\
    Forall synthesized added /\
    NoDup (registered_flags p).
Proof.
  unfold add_capture_arguments.
  rewrite add_argument_fresh by reflexivity. cbn [bind].
  set (p1 := {| actions := _; p_defaults := _ |}).
  destruct (plugin_arguments_synthesized
              (get_relevant_extensions capture_hooks) p1)
    as (added1 & Ha1 & Hd1 & Hall1).
  destruct (device_arguments_synthesized driver_template
              (_add_plugin_arguments (get_relevant_extensions capture_hooks) p1))
    as (added2 & Ha2 & Hd2 & Hall2).
  eexists. exists (added1 ++ added2). split; [reflexivity|].
  split; [rewrite Ha2, Ha1, <- app_assoc; reflexivity|].
  split; [rewrite Hd2, Hd1; reflexivity|].
  split; [now apply List.Forall_app|].
  apply add_device_arguments_NoDup, add_plugin_arguments_NoDup.
  repeat (apply NoDup_cons; split;
          [rewrite list_elem_of_In; simpl; intuition discriminate|]).
  apply NoDup_nil. exact I.
Qed.

End SetupParserProperties.

Section SetupParserSurface.

Variable get_relevant_extensions : list string -> list Extension.
Variable driver_template : template.

Lemma setup_parser_parsers :
  exists ps : Parsers,
    setup_parser get_relevant_extensions driver_template = Ok ps /\
    actions (rootparser ps) =
      [help_action;
       make_action ["--verbose"; "-v"] verbose_kwargs new_parser;
       make_action [] path_kwargs new_parser] /\
    forall name h parser,
      In (name, h, parser) subcommands ->
      p_defaults (parser ps) = [("subcommand", PStr name)] /\
      NoDup (registered_flags (parser ps)) /\
      exists added,
        actions (parser ps) = help_action :: fixed_actions name ++ added /\
        Forall synthesized added.
Proof.
  unfold setup_parser.
  rewrite (add_argument_free ["--verbose"; "-v"]) by reflexivity. cbn [bind].
  rewrite (add_argument_free []) by reflexivity. cbn [bind].
  destruct (add_capture_arguments_surface get_relevant_extensions
              driver_template "capture")
    as (cap & addc & Hcap & Hcacts & Hcdefs & Hcall & Hcnd).
  destruct (add_capture_arguments_surface get_relevant_extensions
              driver_template "wizard")
    as (wiz & addw & Hwiz & Hwacts & Hwdefs & Hwall & Hwnd).
  rewrite Hcap, Hwiz. cbn [bind].
  rewrite (add_argument_free ["--jobs"; "-j"]) by reflexivity. cbn [bind].
  eexists. split; [reflexivity|]. split; [reflexivity|].
  intros name h parser Hin.
  cbn [subcommands In] in Hin.
  destruct Hin as [[= <- <- <-]|[[= <- <- <-]|[[= <- <- <-]|[[= <- <- <-]|[]]]]];
    cbn [wizard_parser capture_parser postprocess_parser output_parser].
  - destruct (plugin_arguments_synthesized
                (get_relevant_extensions ["process"]) wiz)
      as (a1 & Ha1 & Hd1 & Hall1).
    destruct (plugin_arguments_synthesized
                (get_relevant_extensions ["output"])
                (_add_plugin_arguments (get_relevant_extensions ["process"]) wiz))
      as (a2 & Ha2 & Hd2 & Hall2).
    split; [rewrite Hd2, Hd1; exact Hwdefs|].
    split; [now apply add_plugin_arguments_NoDup, add_plugin_arguments_NoDup|].
    exists (addw ++ a1 ++ a2). split.
    + rewrite Ha2, Ha1, Hwacts. cbn [fixed_actions String.eqb Ascii.eqb
                                     Bool.eqb orb app].
      now rewrite <- !app_assoc.
    + repeat (apply List.Forall_app; split); assumption.
  - split; [exact Hcdefs|]. split; [exact Hcnd|].
    exists addc. split; [exact Hcacts|exact Hcall].
  - set (post1 := set_defaults "subcommand" (PStr "postprocess") _).
    destruct (plugin_arguments_synthesized
                (get_relevant_extensions ["process"]) post1)
      as (a1 & Ha1 & Hd1 & Hall1).
    split; [rewrite Hd1; reflexivity|].
    split.
    + apply add_plugin_arguments_NoDup.
      repeat (apply NoDup_cons; split;
              [rewrite list_elem_of_In; simpl; intuition discriminate|]).
      apply NoDup_nil. exact I.
    + exists a1. split; [rewrite Ha1; reflexivity|exact Hall1].
  - set (out0 := set_defaults "subcommand" (PStr "output") new_parser).
    destruct (plugin_arguments_synthesized
                (get_relevant_extensions ["output"]) out0)
      as (a1 & Ha1 & Hd1 & Hall1).
    split; [rewrite Hd1; reflexivity|].
    split.
    + apply add_plugin_arguments_NoDup.
      repeat (apply NoDup_cons; split;
              [rewrite list_elem_of_In; simpl; intuition discriminate|]).
      apply NoDup_nil. exact I.
    + exists a1. split; [rewrite Ha1; reflexivity|exact Hall1].
Qed.

(** X13: [setup_parser] never raises, whatever templates the extensions and
    the driver declare.  Each of the four subcommand parsers sets
    [subcommand] to its own name as its only parser default, starts with
    [-h/--help] and its own fixed arguments ([--no-parallel-capture] for
    capture and wizard, [--jobs/-j] for postprocess), has only
    synthesized, owner-qualified actions after them, and no option string
    twice; a template option that asks for one of the fixed option
    strings is the one that loses. *)
Theorem setup_parser_surface :
  exists ps : Parsers,
    setup_parser get_relevant_extensions driver_template = Ok ps /\
    actions (rootparser ps) =
      [help_action;
       make_action ["--verbose"; "-v"] verbose_kwargs new_parser;
       make_action [] path_kwargs new_parser] /\
    forall name h parser,
      In (name, h, parser) subcommands ->
      p_defaults (parser ps) = [("subcommand", PStr name)] /\
      NoDup (registered_flags (parser ps)) /\
      exists added,
        actions (parser ps) = help_action :: fixed_actions name ++ added /\
        Forall synthesized added.
Proof.
  destruct setup_parser_parsers as (ps & Hrun & Hroot & Hsub).
  exists ps. split; [exact Hrun|]. split; [exact Hroot|].
  intros name h parser Hin. exact (Hsub name h parser Hin).
Qed.

End SetupParserSurface.

(** ** From the subcommand parser to the handler *)

Lemma add_action_defaults_absent (d : string) (acts : list Action) :
  (forall a, In a acts -> a_dest a <> d) ->
  forall ns, assoc d (add_action_defaults acts ns) = assoc d ns.
Proof.
  unfold add_action_defaults.
  induction acts as [|a acts IH]; intros Hd ns; [reflexivity|].
  cbn [fold_left]. rewrite IH by (intros b Hb; apply Hd; now right).
  destruct (a_default a); [|reflexivity].
  destruct (hasattr (a_dest a) ns); [reflexivity|].
  apply assoc_setattr_ne. intros Heq. apply (Hd a); [now left|congruence].
Qed.

Lemma never_touched (d : string) (p : ArgumentParser)
    (occs : list occurrence) :
  (forall a, In a (actions p) -> a_dest a <> d) ->
  forallb (fun o => negb (touches d p o)) occs = true.
Proof.
  intros Hd. apply forallb_forall. intros o _. unfold touches, find_action.
  destruct (List.find _ (actions p)) as [a|] eqn:Hfind; [|reflexivity].
  apply List.find_some in Hfind as [Hin _].
  destruct (String.eqb_spec (a_dest a) d) as [Heq|]; [|reflexivity].
  now destruct (Hd a Hin).
Qed.

Lemma synthesized_dest_ne (a : Action) (d : string) :
  synthesized a -> count_char "." d = 0%nat -> a_dest a <> d.
Proof. intros [Hdot _] Hd Heq. rewrite Heq in Hdot. unfold Nat.le in Hdot. lia. Qed.

Lemma fixed_actions_dest (name : string) (a : Action) :
  In a (fixed_actions name) ->
  a_dest a = "parallel_capture" \/ a_dest a = "jobs".
Proof.
  unfold fixed_actions.
  destruct (String.eqb name "wizard" || String.eqb name "capture").
  - intros [<-|[]]. now left.
  - destruct (String.eqb name "postprocess"); [|intros []].
    intros [<-|[]]. now right.
Qed.

Section Dispatch.

Variable get_relevant_extensions : list string -> list Extension.
Variable driver_template : template.
Variable py_int : string -> option Z.
Variable py_float : string -> option Q.

Lemma subcommand_parser_shape (ps : Parsers) (name : string) (h : handler)
    (parser : Parsers -> ArgumentParser) :
  setup_parser get_relevant_extensions driver_template = Ok ps ->
  In (name, h, parser) subcommands ->
  p_defaults (parser ps) = [("subcommand", PStr name)] /\
  exists added,
    actions (parser ps) = help_action :: fixed_actions name ++ added /\
    Forall synthesized added.
Proof.
  intros Hsetup Hin.
  destruct (setup_parser_parsers get_relevant_extensions driver_template)
    as (ps' & Hrun & _ & Hsub).
  rewrite Hsetup in Hrun. injection Hrun as <-.
  destruct (Hsub name h parser Hin) as (Hd & _ & Hshape). now split.
Qed.

(** A parse on a subcommand parser leaves that parser's name under
    [subcommand]: no action can set it. *)
Lemma parse_sets_subcommand (ps : Parsers) (name : string) (h : handler)
    (parser : Parsers -> ArgumentParser) (occs : list occurrence)
    (ns0 ns : namespace) :
  setup_parser get_relevant_extensions driver_template = Ok ps ->
  In (name, h, parser) subcommands ->
  NoDup (map fst ns0) ->
  hasattr "subcommand" ns0 = false ->
  parse_known_args py_int py_float (parser ps) occs ns0 = Ok ns ->
  assoc "subcommand" ns = Some (PStr name) /\ NoDup (map fst ns).
Proof.
  intros Hsetup Hin Hnd Hfree Hparse.
  destruct (subcommand_parser_shape ps name h parser Hsetup Hin)
    as (Hdefs & added & Hacts & Hall).
  assert (Hdest : forall a, In a (actions (parser ps)) ->
                            a_dest a <> "subcommand").
  { intros a Ha. rewrite Hacts in Ha. destruct Ha as [<-|Ha]; [discriminate|].
    apply in_app_or in Ha as [Ha|Ha].
    - destruct (fixed_actions_dest name a Ha) as [-> | ->]; discriminate.
    - rewrite List.Forall_forall in Hall.
      now apply synthesized_dest_ne; [apply Hall|]. }
  unfold parse_known_args in Hparse. rewrite Hdefs in Hparse.
  destruct (consume_untouched py_int py_float "subcommand" (parser ps) occs
              _ ns Hparse) as (Hnd' & Hsame).
  split.
  - rewrite (Hsame (never_touched _ _ occs Hdest)).
    unfold add_parser_defaults. cbn [fold_left fst snd].
    unfold hasattr in *.
    rewrite (add_action_defaults_absent "subcommand" _ Hdest ns0).
    destruct (assoc "subcommand" ns0); [discriminate|].
    apply assoc_setattr_eq.
  - apply Hnd'.
    apply (add_parser_defaults_NoDup [("subcommand", PStr name)]).
    now apply add_action_defaults_NoDup.
Qed.

Lemma subcommand_handler (name : string) (h : handler)
    (parser : Parsers -> ArgumentParser) :
  In (name, h, parser) subcommands -> globals_lookup name = Ok h.
Proof.
  cbn [subcommands In].
  intros [[= <- <- <-]|[[= <- <- <-]|[[= <- <- <-]|[[= <- <- <-]|[]]]]];
    reflexivity.
Qed.

Variable run_handler : handler -> ConfigNamespace -> result unit.

(** X14: The name a subcommand parser leaves under [subcommand] survives the
    merge and selects the handler of the same name: after a successful
    parse on the wizard, capture, postprocess or output parser, [main]
    calls exactly that handler on the merged configuration as soon as the
    configured log level is valid, and ends as the handler does. *)
Theorem subcommand_reaches_its_handler
    (ps : Parsers) (name : string) (h : handler)
    (parser : Parsers -> ArgumentParser) (occs : list occurrence)
    (ns0 ns : namespace) (file : option ConfigNamespace)
    (config0 : ConfigNamespace) :
  setup_parser get_relevant_extensions driver_template = Ok ps ->
  In (name, h, parser) subcommands ->
  NoDup (map fst ns0) ->
  hasattr "subcommand" ns0 = false ->
  parse_known_args py_int py_float (parser ps) occs ns0 = Ok ns ->
  well_formed_keys ns ->
  let r := main run_handler file config0 (Ok ns) in
  exists config' : ConfigNamespace,
    final_config r = Some config' /\
    config' !! ["subcommand"] = Some (PStr name) /\
    (is_ok (as_choice ["loglevel"] loglevels config') = true ->
     is_ok (getattr "verbose" ns) = true ->
     In (Call h) (trace r) /\
     In (NewWorkflow config') (trace r) /\
     status r = match run_handler h config' with
                | Ok _ => Ok tt
                | Raise e => Raise e
                end).
Proof.
  intros Hsetup Hin Hnd Hfree Hparse Hwf r.
  destruct (parse_sets_subcommand ps name h parser occs ns0 ns
              Hsetup Hin Hnd Hfree Hparse) as (Hsub & Hnodup).
  destruct (merge_args_frame ns Hwf config0) as (config' & Hrun & _).
  pose proof (merge_args_written ns Hnodup Hwf config0 config' Hrun
                "subcommand" (PStr name) (assoc_In _ _ _ Hsub)
                ltac:(discriminate) ltac:(discriminate)) as Hcfg.
  change (split "." "subcommand") with ["subcommand"] in Hcfg.
  pose proof (subcommand_handler name h parser Hin) as Hglobal.
  exists config'. subst r. split; [|split; [exact Hcfg|]].
  - unfold main. rewrite Hrun.
    destruct (after_merge run_handler ns config'). now destruct file.
  - intros Hlevel Hverbose. unfold main. rewrite Hrun.
    unfold after_merge, config_get. rewrite Hcfg, Hglobal.
    destruct (as_choice ["loglevel"] loglevels config') as [level|];
      [|discriminate].
    destruct (getattr "verbose" ns) as [verbose|]; [|discriminate].
    destruct file, (run_handler h config') as [[]|e]; cbn [trace status];
      (split; [cbn; tauto|split; [cbn; tauto|reflexivity]]).
Qed.

End Dispatch.

Lemma subcommand_reaches_its_handler_witness :
  let relevant := fun _ : list string => @nil Extension in
  let py_int := fun _ : string => @None Z in
  let py_float := fun _ : string => @None Q in
  let run := fun (_ : handler) (_ : ConfigNamespace) => Ok tt in
  let ns0 := [("verbose", PBool false); ("path", PStr "book")] in
  let config0 : ConfigNamespace := <[ ["loglevel"] := PStr "info" ]> ∅ in
  exists ps ns,
    setup_parser relevant None = Ok ps /\
    parse_known_args py_int py_float (capture_parser ps) [] ns0 = Ok ns /\
    In (Call HCapture) (trace (main run None config0 (Ok ns))) /\
    status (main run None config0 (Ok ns)) = Ok tt.
Proof.
  intros relevant py_int py_float run ns0 config0.
  let ps := eval vm_compute in
              (match setup_parser relevant None with
               | Ok x => x
               | Raise _ => mkParsers new_parser new_parser new_parser
                                      new_parser new_parser
               end) in
  let ns := eval vm_compute in
              (match parse_known_args py_int py_float (capture_parser ps)
                       [] ns0 with
               | Ok n => n
               | Raise _ => ns0
               end) in
  exists ps, ns; split; [vm_compute; reflexivity|];
  split; [vm_compute; reflexivity|];
  destruct (subcommand_reaches_its_handler relevant None py_int py_float run
              ps "capture" HCapture capture_parser [] ns0 ns None config0)
    as (config' & Hfinal & _ & Hcall).
  - vm_compute. reflexivity.
  - simpl. auto.
  - repeat (apply NoDup_cons; split;
            [rewrite list_elem_of_In; simpl; intuition discriminate|]).
    apply NoDup_nil. exact I.
  - reflexivity.
  - vm_compute. reflexivity.
  - intros k x Hin _ _. simpl in Hin.
    repeat (destruct Hin as [[= <- <-]|Hin]; [simpl; lia|]). contradiction.
  - match type of Hfinal with
    | final_config ?r = _ =>
        match r with
        | main _ _ _ (Ok ?n) =>
            assert (Hmerged : final_config r =
                                Some (match merge_args n config0 with
                                      | Ok c => c
                                      | Raise _ => config0
                                      end)) by (vm_compute; reflexivity)
        end
    end.
    rewrite Hmerged in Hfinal. injection Hfinal as <-.
    destruct Hcall as (Hc & _ & Hs); [vm_compute; reflexivity..|].
    split; [exact Hc|exact Hs].
Defined.

Section FixedArguments.

Variable get_relevant_extensions : list string -> list Extension.
Variable driver_template : template.
Variable py_int : string -> option Z.
Variable py_float : string -> option Q.


End FixedArguments.


(** ** The merge loop: failure and order *)

Lemma merge_args_raises (args : namespace) :
  forall config e,
    merge_args args config = Raise e ->
    e = ValueError "too many values to unpack" /\
    exists k v, In (k, v) args /\ v <> PNone /\ k <> "func" /\
                (2 <= count_char "." k)%nat.
Proof.
  induction args as [|[k v] rest IH]; intros config e Hrun; [discriminate|].
  destruct (skip_or_write k v) as [Hskip|[Hv Hk]].
  - rewrite merge_args_skip in Hrun by assumption.
    destruct (IH _ _ Hrun) as (He & k' & v' & Hin & H).
    split; [assumption|]. exists k', v'. split; [now right|exact H].
  - destruct (le_lt_dec (count_char "." k) 1) as [Hle|Hgt].
    + rewrite merge_args_step in Hrun by assumption.
      destruct (IH _ _ Hrun) as (He & k' & v' & Hin & H).
      split; [assumption|]. exists k', v'. split; [now right|exact H].
    + assert (He : e = ValueError "too many values to unpack").
      { cbn [merge_args] in Hrun.
        rewrite (proj2 (is_none_false v) Hv) in Hrun.
        destruct (String.eqb_spec k "func"); [contradiction|].
        cbn [orb] in Hrun.
        destruct (0 <? count_char "." k)%nat eqn:D;
          [|apply Nat.ltb_ge in D; lia].
        pose proof (split_length "." k) as Hlen.
        destruct (split "." k) as [|a [|b [|c l]]]; simpl in Hlen;
          try lia; now injection Hrun as <-. }
      split; [exact He|]. exists k, v. split; [now left|]. now repeat split.
Qed.

(** X16: The merge loop succeeds exactly when every key it has to write is
    bare or has the one dot of [section.key]; a written key with two or
    more dots makes the unpacking of [argkey.split('.')] raise
    [ValueError], and that is the only way the loop fails. *)
Theorem merge_args_fails_only_on_extra_dots
    (args : namespace) (config : ConfigNamespace) :
  (is_ok (merge_args args config) = true <-> well_formed_keys args) /\
  (forall e, merge_args args config = Raise e ->
             e = ValueError "too many values to unpack").
Proof.
  split; [split|].
  - intros Hok k v Hin Hv Hk.
    destruct (le_lt_dec (count_char "." k) 1) as [Hle|Hgt]; [exact Hle|].
    exfalso. revert config Hok.
    induction args as [|[k0 v0] rest IH]; intros config Hok; [destruct Hin|].
    destruct (skip_or_write k0 v0) as [Hskip|[Hv0 Hk0]].
    + rewrite merge_args_skip in Hok by assumption.
      destruct Hin as [[= -> ->]|Hin]; [|now apply (IH Hin config)].
      destruct Hskip; contradiction.
    + destruct (le_lt_dec (count_char "." k0) 1) as [Hle0|Hgt0].
      * rewrite merge_args_step in Hok by assumption.
        destruct Hin as [[= -> ->]|Hin]; [lia|now apply (IH Hin _ Hok)].
      * destruct (merge_args ((k0, v0) :: rest) config) as [cfg|e] eqn:Hrun;
          [|discriminate].
        cbn [merge_args] in Hrun.
        rewrite (proj2 (is_none_false v0) Hv0) in Hrun.
        destruct (String.eqb_spec k0 "func"); [contradiction|].
        cbn [orb] in Hrun.
        destruct (0 <? count_char "." k0)%nat eqn:D;
          [|apply Nat.ltb_ge in D; lia].
        pose proof (split_length "." k0) as Hlen.
        destruct (split "." k0) as [|a [|b [|c l]]]; simpl in Hlen;
          try lia; discriminate.
  - intros Hwf. destruct (merge_args_frame args Hwf config) as (c & Hrun & _).
    now rewrite Hrun.
  - intros e Hrun. now destruct (merge_args_raises args config e Hrun).
Qed.

Lemma well_formed_keys_tail (kv : string * pyval) (args : namespace) :
  well_formed_keys (kv :: args) -> well_formed_keys args.
Proof. intros Hwf k v Hin. apply Hwf. now right. Qed.

Lemma well_formed_keys_perm (args args' : namespace) :
  Permutation args args' -> well_formed_keys args -> well_formed_keys args'.
Proof.
  intros Hperm Hwf k v Hin. apply Hwf.
  eapply Permutation_in; [symmetry; exact Hperm|exact Hin].
Qed.

(** X17: The parsed arguments are a dictionary, iterated in no particular
    order: the merged configuration does not depend on that order. *)
Theorem merge_args_order_independent
    (args args' : namespace) (config : ConfigNamespace) :
  NoDup (map fst args) ->
  well_formed_keys args ->
  Permutation args args' ->
  merge_args args' config = merge_args args config.
Proof.
  intros Hnd Hwf Hperm. revert config Hnd Hwf.
  induction Hperm
    as [|[k v] l l' Hperm IH|[k1 v1] [k2 v2] l|l l' l'' H1 IH1 H2 IH2];
    intros config Hnd Hwf.
  - reflexivity.
  - simpl in Hnd. apply NoDup_cons in Hnd as [_ Hnd].
    pose proof (well_formed_keys_tail _ _ Hwf) as Hwf'.
    destruct (skip_or_write k v) as [Hskip|[Hv Hk]].
    + rewrite !merge_args_skip by assumption. now apply IH.
    + assert (Hdots : (count_char "." k <= 1)%nat)
        by (apply (Hwf k v); [now left|assumption..]).
      rewrite !merge_args_step by assumption. now apply IH.
  - simpl in Hnd. apply NoDup_cons in Hnd as [Hne _].
    assert (Hkeys : k1 <> k2).
    { intros ->. apply Hne. now left. }
    destruct (skip_or_write k1 v1) as [Hs1|[Hv1 Hk1]],
             (skip_or_write k2 v2) as [Hs2|[Hv2 Hk2]].
    + now rewrite !merge_args_skip.
    + assert (Hd2 : (count_char "." k2 <= 1)%nat)
        by (apply (Hwf k2 v2); [now left|assumption..]).
      rewrite (merge_args_skip k1), (merge_args_step k2), (merge_args_step k2),
        (merge_args_skip k1) by assumption.
      reflexivity.
    + assert (Hd1 : (count_char "." k1 <= 1)%nat)
        by (apply (Hwf k1 v1); [right; now left|assumption..]).
      rewrite (merge_args_step k1), (merge_args_skip k2), (merge_args_skip k2),
        (merge_args_step k1) by assumption.
      reflexivity.
    + assert (Hd1 : (count_char "." k1 <= 1)%nat)
        by (apply (Hwf k1 v1); [right; now left|assumption..]).
      assert (Hd2 : (count_char "." k2 <= 1)%nat)
        by (apply (Hwf k2 v2); [now left|assumption..]).
      rewrite (merge_args_step k1), (merge_args_step k2), (merge_args_step k2),
        (merge_args_step k1) by assumption.
      rewrite insert_insert_ne; [reflexivity|].
      intros Heq. apply split_inj in Heq. congruence.
  - rewrite IH2.
    + now apply IH1.
    + apply (proj1 (NoDup_Permutation_proper _ _ (Permutation_map fst H1))).
      exact Hnd.
    + now apply (well_formed_keys_perm l).
Qed.

Lemma merge_args_order_independent_witness :
  let args := [("verbose", PBool true); ("device.orientation", PStr "left");
               ("jobs", PNone)] in
  let args' := [("jobs", PNone); ("device.orientation", PStr "left");
                ("verbose", PBool true)] in
  merge_args args' ∅ = merge_args args ∅.
Proof.
  intros args args'.
  apply (merge_args_order_independent args args' ∅).
  - repeat (apply NoDup_cons; split;
            [rewrite list_elem_of_In; simpl; intuition discriminate|]).
    apply NoDup_nil. exact I.
  - intros k v Hin _ _. simpl in Hin.
    repeat (destruct Hin as [[= <- <-]|Hin]; [simpl; lia|]). contradiction.
  - unfold args, args'.
    apply perm_trans with [("device.orientation", PStr "left");
                           ("jobs", PNone); ("verbose", PBool true)];
      [|apply perm_swap].
    apply perm_trans with [("device.orientation", PStr "left");
                           ("verbose", PBool true); ("jobs", PNone)];
      [apply perm_swap|apply perm_skip, perm_swap].
Defined.

(** ** main: when the logger is set up and the handler is called *)

Section MainOutcomes.

Variable run_handler : handler -> ConfigNamespace -> result unit.

Lemma main_late_event (file : option ConfigNamespace)
    (config0 : ConfigNamespace) (parsed : result namespace) (e : main_event) :
  is_late e = true ->
  In e (trace (main run_handler file config0 parsed)) <->
  exists args config,
    parsed = Ok args /\ merge_args args config0 = Ok config /\
    In e (fst (after_merge run_handler args config)).
Proof.
  intros Hlate. unfold main.
  destruct parsed as [args|err].
  - destruct (merge_args args config0) as [config|err] eqn:Hm.
    + destruct (after_merge run_handler args config) as [tr st] eqn:Ha.
      split.
      * intros Hin. exists args, config. rewrite Ha.
        split; [reflexivity|]. split; [exact Hm|]. cbn [fst].
        destruct file; simpl in Hin;
          repeat (destruct Hin as [<-|Hin]; [discriminate|]); exact Hin.
      * intros (args' & config' & [= <-] & Hm' & Hin).
        rewrite Hm in Hm'. injection Hm' as <-. rewrite Ha in Hin.
        destruct file; cbn [fst] in Hin; simpl; tauto.
    + split.
      * intros Hin. destruct file; simpl in Hin;
          repeat (destruct Hin as [<-|Hin]; [discriminate|]); destruct Hin.
      * intros (args' & config' & [= <-] & Hm' & _). congruence.
  - split.
    + intros Hin. destruct file; simpl in Hin;
        repeat (destruct Hin as [<-|Hin]; [discriminate|]); destruct Hin.
    + intros (args' & config' & Habs & _). discriminate.
Qed.

Lemma after_merge_logger (args : namespace) (config : ConfigNamespace)
    (lvl : Z) :
  In (LoggerSetup lvl) (fst (after_merge run_handler args config)) <->
  chosen_level args config = Some lvl.
Proof.
  unfold after_merge, chosen_level.
  destruct (as_choice ["loglevel"] loglevels config) as [level|].
  2:{ split; [intros [H|[]]; discriminate H|discriminate]. }
  destruct (getattr "verbose" args) as [verbose|].
  2:{ split; [intros [H|[H|[]]]; discriminate H|discriminate]. }
  split.
  - intros Hin. repeat case_match;
      each_event Hin ltac:(fun H => try discriminate H; now injection H as <-).
  - intros [= <-]. repeat case_match; cbn; tauto.
Qed.

Lemma after_merge_called (args : namespace) (config : ConfigNamespace)
    (h : handler) :
  In (Call h) (fst (after_merge run_handler args config)) <->
  is_ok (as_choice ["loglevel"] loglevels config) = true /\
  is_ok (getattr "verbose" args) = true /\
  exists name, config !! ["subcommand"] = Some (PStr name) /\
               globals_lookup name = Ok h.
Proof.
  unfold after_merge, config_get.
  destruct (as_choice ["loglevel"] loglevels config) as [level|].
  2:{ split; [intros [H|[]]; discriminate H|intros [H _]; discriminate H]. }
  destruct (getattr "verbose" args) as [verbose|].
  2:{ split; [intros [H|[H|[]]]; discriminate H
             |intros (_ & H & _); discriminate H]. }
  split.
  - intros Hin. repeat split.
    repeat case_match;
      each_event Hin ltac:(fun H => try discriminate H; injection H as <-);
      simplify_eq; eauto.
  - intros (_ & _ & name & Hsub & Hg). rewrite Hsub, Hg.
    destruct (run_handler h config); cbn; tauto.
Qed.

(** X18: [main] calls a handler exactly when the arguments parsed, the merge
    succeeded, the configured log level is one of the six known names,
    [verbose] is there to read and [config["subcommand"]] names a global
    of the module; the handler called is the one of that name.  In every
    other case no handler runs. *)
Theorem handler_called_iff
    (file : option ConfigNamespace) (config0 : ConfigNamespace)
    (parsed : result namespace) (h : handler) :
  In (Call h) (trace (main run_handler file config0 parsed)) <->
  exists args config name,
    parsed = Ok args /\
    merge_args args config0 = Ok config /\
    is_ok (as_choice ["loglevel"] loglevels config) = true /\
    is_ok (getattr "verbose" args) = true /\
    config !! ["subcommand"] = Some (PStr name) /\
    globals_lookup name = Ok h.
Proof.
  rewrite main_late_event by reflexivity. split.
  - intros (args & config & Hp & Hm & Hin).
    apply after_merge_called in Hin as (Hl & Hv & name & Hs & Hg).
    exists args, config, name. now repeat split.
  - intros (args & config & name & Hp & Hm & Hl & Hv & Hs & Hg).
    exists args, config. split; [assumption|]. split; [assumption|].
    apply after_merge_called. repeat split; try assumption. now exists name.
Qed.

(** X19: The logger is set up exactly when the arguments parsed, the merge
    succeeded and the configured log level is one of the six known names.
    Its level is then DEBUG if [args.verbose] is true and the configured
    level otherwise.  The configured level is looked up first: a missing
    or unknown [loglevel] ends the run even when [verbose] was given. *)
Theorem logger_level_chosen
    (file : option ConfigNamespace) (config0 : ConfigNamespace)
    (parsed : result namespace) :
  (forall lvl,
      In (LoggerSetup lvl) (trace (main run_handler file config0 parsed)) <->
      exists args config,
        parsed = Ok args /\ merge_args args config0 = Ok config /\
        chosen_level args config = Some lvl) /\
  (forall args config e,
      parsed = Ok args -> merge_args args config0 = Ok config ->
      as_choice ["loglevel"] loglevels config = Raise e ->
      status (main run_handler file config0 parsed) = Raise e /\
      e = ConfigError ["loglevel"]).
Proof.
  split.
  - intros lvl. rewrite main_late_event by reflexivity. split.
    + intros (args & config & Hp & Hm & Hin). exists args, config.
      split; [assumption|]. split; [assumption|].
      now apply after_merge_logger.
    + intros (args & config & Hp & Hm & Hc). exists args, config.
      split; [assumption|]. split; [assumption|].
      now apply after_merge_logger.
  - intros args config e -> Hm Hlevel. unfold main. rewrite Hm.
    unfold after_merge. rewrite Hlevel. split; [now destruct file|].
    unfold as_choice in Hlevel.
    destruct (config !! ["loglevel"]) as [[]|]; try now injection Hlevel as <-.
    destruct (assoc s loglevels); [discriminate|now injection Hlevel as <-].
Qed.

Lemma after_merge_deinit (args : namespace) (config : ConfigNamespace) :
  In Deinit (fst (after_merge run_handler args config)) <->
  snd (after_merge run_handler args config) = Ok tt.
Proof.
  unfold after_merge.
  repeat case_match; cbn [fst snd]; split; intros Hd;
    try discriminate Hd; try reflexivity;
    try (simpl; tauto);
    simpl in Hd; intuition discriminate.
Qed.

(** X20: [colorama.deinit()] is reached exactly when [main] ends without an
    exception, and [main] ends without an exception exactly when a
    handler was called and returned: any failure, from a usage error to
    an exception inside the handler, leaves the colour support
    initialised. *)
Theorem deinit_iff_handler_returned
    (file : option ConfigNamespace) (config0 : ConfigNamespace)
    (parsed : result namespace) :
  let r := main run_handler file config0 parsed in
  (In Deinit (trace r) <-> status r = Ok tt) /\
  (status r = Ok tt <->
   exists h config,
     In (Call h) (trace r) /\ final_config r = Some config /\
     run_handler h config = Ok tt).
Proof.
  intros r. subst r. split.
  - rewrite main_late_event by reflexivity. unfold main.
    destruct parsed as [args|err].
    + destruct (merge_args args config0) as [config|err] eqn:Hm.
      * pose proof (after_merge_deinit args config) as Hd.
        destruct (after_merge run_handler args config) as [tr st] eqn:Ha.
        cbn [fst snd] in Hd. split.
        -- intros (args' & config' & [= <-] & Hm' & Hin).
           rewrite Hm in Hm'. injection Hm' as <-. rewrite Ha in Hin.
           destruct file; cbn [status]; now apply Hd.
        -- intros Hst. exists args, config. rewrite Ha.
           split; [reflexivity|]. split; [exact Hm|].
           apply Hd. now destruct file.
      * split; [intros (a & c & [= <-] & Hm' & _); congruence|].
        destruct file; discriminate.
    + split; [intros (a & c & Habs & _); discriminate|].
      destruct file; discriminate.
  - split.
    + intros Hst. unfold main in *.
      destruct parsed as [args|err]; [|destruct file; discriminate].
      destruct (merge_args args config0) as [config|err] eqn:Hm;
        [|destruct file; discriminate].
      unfold after_merge, config_get in *.
      destruct (as_choice _ _ _); [|destruct file; discriminate].
      destruct (getattr _ _); [|destruct file; discriminate].
      destruct (config !! ["subcommand"]) as [[]|];
        try (destruct file; discriminate).
      destruct (globals_lookup s) as [h|]; [|destruct file; discriminate].
      destruct (run_handler h config) as [[]|] eqn:Hrun;
        [|destruct file; discriminate].
      exists h, config. destruct file; cbn; tauto.
    + intros (h & config & Hcall & Hfc & Hrun).
      apply main_late_event in Hcall as (args & config' & -> & Hm & Hin);
        [|reflexivity].
      unfold main in *. rewrite Hm in *.
      apply after_merge_called in Hin as (Hl & Hv & name & Hs & Hg).
      assert (config' = config) as ->.
      { destruct (after_merge run_handler args config'); destruct file;
          cbn [final_config] in Hfc; congruence. }
      unfold after_merge, config_get. rewrite Hs, Hg, Hrun.
      destruct (as_choice _ _ _); [|discriminate].
      destruct (getattr _ _); [|discriminate].
      now destruct file.
Qed.

End MainOutcomes.
